(** * shiny-vscode: readiness probing, free-port discovery and preview launch

    A shallow embedding of [src/net-utils.ts] and of the
    [ProposedFilePreviewProvider] class.  The program is asynchronous
    JavaScript running on one event loop; the embedding makes the
    environment explicit:

    - a promise is a value that is pending, fulfilled or rejected, and
      settles at most once;
    - an event emitter (socket, HTTP server) is driven by the events the
      platform delivers, in delivery order;
    - the operating system is an [Env] of oracles plus a [World] that is
      threaded through the calls;
    - the editor and the user are a script of answers, one [Round] per
      activation of the orchestrator, and every call into the editor API
      is appended to an event log;
    - the numbers of the progress reports are binary64 floating-point
      numbers, computed as the program computes them.

    Part I holds the definitions, Part II the lemmas and theorems of the
    specification's claims, Part III further properties of the code. *)

From Stdlib Require Import ZArith QArith Lia Floats.
From stdpp Require Import base option list strings gmap sets pretty.

Local Open Scope string_scope.
Local Open Scope Z_scope.
Local Open Scope list_scope.

(** * Part I: definitions *)

(** ** JavaScript promises *)

Module Js.

(** The three states of a promise; [E] is the type of rejection reasons.
    As the final state of an asynchronous call, [Pending] stands for a
    promise that never settles. *)
Inductive Promise (A E : Type) : Type :=
| Pending
| Fulfilled (v : A)
| Rejected (e : E).

Arguments Pending {A E}.
Arguments Fulfilled {A E} v.
Arguments Rejected {A E} e.

(** The [resolve] and [reject] capabilities handed to the executor of
    [new Promise(...)]: they settle a pending promise and do nothing on
    a settled one. *)
Definition resolve {A E} (v : A) (p : Promise A E) : Promise A E :=
  match p with
  | Pending => Fulfilled v
  | _ => p
  end.

Definition reject {A E} (e : E) (p : Promise A E) : Promise A E :=
  match p with
  | Pending => Rejected e
  | _ => p
  end.

Definition settled {A E} (p : Promise A E) : bool :=
  match p with
  | Pending => false
  | _ => true
  end.

End Js.

Import Js.

(** ** The platform: sockets, listeners and the operating system *)

Module Node.

(** What a [net.Socket] can emit after [connect] was called on it. *)
Inductive SocketEvent : Type :=
| EvConnect
| EvTimeout
| EvError (err : string)
| EvClose.

(** The calls a client makes on its socket. *)
Inductive SocketCall : Type :=
| SetTimeout (ms : Z)
| Connect (port : Z) (host : string)
| SocketEnd
| SocketDestroy.

(** The operating system, as seen from this process.  Times are
    milliseconds on the clock [Date.now()] reads. *)
Record Env : Type := mkEnv {
  (** at time [t], does the system refuse to bind loopback port [p]
      (the port is taken by another process, or may not be bound)? *)
  externalBusy : Z -> Z -> bool;
  (** how long a [listen] started at time [t] takes to report *)
  bindLatency : Z -> N;
  (** the port handed out to the [n]-th [listen] on port 0, if any *)
  ephemeral : nat -> option Z
}.

Record World : Type := mkWorld {
  now : Z;
  (** loopback ports on which a server of this process listens *)
  held : gset Z;
  (** how many times port 0 has been asked for *)
  listens : nat
}.

Definition advance (ms : Z) (w : World) : World :=
  {| now := now w + ms; held := held w; listens := listens w |}.

(** An [http.Server]: the port it listens on, if it listens. *)
Record Server : Type := mkServer { address : option Z }.

Definition createServer : Server := {| address := None |}.

Inductive ServerEvent : Type :=
| EvListening
| EvServerError.

(** Node refuses a port outside 0..65535 by throwing from [listen]. *)
Definition valid_port (port : Z) : bool := (0 <=? port) && (port <=? 65535).

(** Binding [p] on 127.0.0.1: refused when the port is taken, by this
    process or by another one. *)
Definition bind (env : Env) (p : Z) (srv : Server) (w : World)
    : ServerEvent * Server * World :=
  if bool_decide (p ∈ held w) || externalBusy env (now w) p
  then (EvServerError, srv, w)
  else (EvListening, {| address := Some p |},
        {| now := now w; held := {[p]} ∪ held w; listens := listens w |}).

(** [server.listen(port, "127.0.0.1")].  [None] is a synchronous throw;
    otherwise the event the server emits, the server and the world at the
    time the event is delivered. *)
Definition server_listen (env : Env) (port : Z) (srv : Server) (w : World)
    : option (ServerEvent * Server * World) :=
  if negb (valid_port port) then None
  else
    let '(ev, srv', w') :=
      if port =? 0 then
        let w0 := {| now := now w; held := held w; listens := S (listens w) |} in
        match ephemeral env (listens w) with
        | Some p => bind env p srv w0
        | None => (EvServerError, srv, w0)
        end
      else bind env port srv w in
    Some (ev, srv', advance (Z.of_N (bindLatency env (now w))) w').

(** [server.close(callback)]: the listening handle is released during the
    call; the callback, which receives an error when the server was not
    listening, runs later. *)
Definition server_close (srv : Server) (w : World)
    : option string * Server * World :=
  match address srv with
  | Some p =>
      (None, {| address := None |},
       {| now := now w; held := held w ∖ {[p]}; listens := listens w |})
  | None => (Some "ERR_SERVER_NOT_RUNNING", srv, w)
  end.

End Node.

Import Node.

(** ** retry-utils.ts *)

Module RetryUtils.

(** Modelled from the spec: the suspension of BoundedRetry between two
    attempts, of exactly [interval] ms. *)
Definition sleep (interval : Z) (w : World) : World := advance interval w.

(** Modelled from the spec: [retryUntilTimeout] is imported by
    net-utils.ts from ./retry-utils, a file that is not among the
    sources.  The spec's BoundedRetry: the probe is invoked repeatedly;
    a probe that fails is retried after a suspension of exactly
    [interval] ms; the first value a probe returns is the result; once
    the time elapsed since the first attempt has used up [timeout] the
    result is absence ([None]), never an error.  A probe that never
    settles leaves the loop waiting on it.  One unit of [fuel] per
    iteration; the outer [None] means the fuel ran out. *)
Fixpoint retryLoop {A : Type} (fuel : nat) (start timeout : Z)
    (callback : World -> Promise A string * World) (interval : Z)
    (w : World) : option (Promise (option A) string * World) :=
  match fuel with
  | O => None
  | S fuel' =>
      if now w - start <? timeout then
        match callback w with
        | (Fulfilled v, w1) => Some (Fulfilled (Some v), w1)
        | (Rejected _, w1) =>
            retryLoop fuel' start timeout callback interval (sleep interval w1)
        | (Pending, w1) => Some (Pending, w1)
        end
      else Some (Fulfilled None, w)
  end.

(** Modelled from the spec: the entry point of BoundedRetry; the clock
    is read once, before the first attempt. *)
Definition retryUntilTimeout {A : Type} (fuel : nat) (timeout : Z)
    (callback : World -> Promise A string * World) (interval : Z)
    (w : World) : option (Promise (option A) string * World) :=
  retryLoop fuel (now w) timeout callback interval w.

End RetryUtils.

Import RetryUtils.

(** ** The editor: terminals, settings, prompts and the event log *)

Module VsCode.

(** A terminal handle; two handles are the same terminal ([===]) when
    their identities agree. *)
Record Terminal : Type := mkTerminal { terminalId : nat }.

#[global] Instance Terminal_eq_dec : EqDecision Terminal.
Proof. solve_decision. Defined.

Record TerminalExitStatus : Type := mkExitStatus { exitCode : option Z }.

(** The log of one run: the calls into the editor API and the console,
    in order, between two kinds of marker: [Activation] is written when
    [openBrowserWhenReady] is entered, [Return] when the outermost call
    returns.  The increment of a progress report is a double. *)
Inductive Event : Type :=
| Activation (port : Z) (additionalPorts : list Z)
    (terminal : option Terminal) (timeout : Z)
| WithProgress (title : string)
| ProgressReport (increment : float)
| ConsoleWarn (message : string)
| ShowErrorMessage (message : string) (items : list string)
| TerminalShow (terminal : Terminal)
| OpenExternal (url : string)
| HostPreview (url : string)
| ExecuteCommand (command : string) (url : string)
| Return.

(** What the editor, the clock, the network and the user answer during
    one activation of [openBrowserWhenReady]. *)
Record Round : Type := mkRound {
  (** [get("shiny.previewType")] when the activation starts *)
  previewTypeSetting : option string;
  (** [Date.now()] when the progress session starts *)
  sessionStart : Z;
  (** [Date.now()] in each invocation, by any of the retry loops, of the
      callback that reports progress and probes a port, in order, up to
      the moment [withProgress] resolves *)
  callbackTimes : list Z;
  (** the value the retry promise of the [i]-th port resolves to *)
  retryResult : nat -> option bool;
  (** the terminals reported closed before all retry promises resolved *)
  closedTerminals : list Terminal;
  (** [exitStatus] of the terminal when the wait result is inspected *)
  exitStatusAfterWait : option TerminalExitStatus;
  (** the item picked in the prompt, if any *)
  action : option string;
  (** [exitStatus] of the terminal when the prompt has been answered *)
  exitStatusAtDecision : option TerminalExitStatus;
  (** Modelled from the spec: [getRemoteSafeUrl] lives in
      ./extension-api-utils, not among the sources; the spec's URL
      resolution collaborator, a function from the port to a URL. *)
  remoteSafeUrl : Z -> string;
  (** [get("shiny.previewType")] when [openBrowser] reads it *)
  previewTypeAtOpen : option string;
  (** does [getExtensionHostPreview()] return a hook? *)
  hostPreview : bool
}.

(** The value [withProgress] resolves to: the array of [Promise.all], or
    the boolean of the terminal-closed promise. *)
Inductive RaceValue : Type :=
| VArray (elements : list (option bool))
| VBool (b : bool).

Definition isArray (v : RaceValue) : bool :=
  match v with
  | VArray _ => true
  | VBool _ => false
  end.

Definition elements (v : RaceValue) : list (option bool) :=
  match v with
  | VArray l => l
  | VBool _ => []
  end.

(** [!p] for [p : boolean | undefined]. *)
Definition falsy (p : option bool) : bool :=
  match p with
  | Some true => false
  | _ => true
  end.

(** [terminal?.exitStatus !== undefined], given the status the handle
    reports at that moment. *)
Definition hasExited (terminal : option Terminal)
    (status : option TerminalExitStatus) : bool :=
  match terminal with
  | Some _ => bool_decide (is_Some status)
  | None => false
  end.

End VsCode.

Import VsCode.

(** ** net-utils.ts *)

Module NetUtils.

(** *** isPortOpen *)

Record Probe : Type := mkProbe {
  promise : Promise bool string;
  client : list SocketCall
}.

(** The connect callback and the three listeners [isPortOpen] installs. *)
Definition on_connect (st : Probe) : Probe :=
  {| promise := resolve true (promise st);
     client := client st ++ [SocketEnd] |}.

Definition on_timeout (st : Probe) : Probe :=
  {| promise := reject "Timed out" (promise st);
     client := client st ++ [SocketDestroy] |}.

Definition on_error (err : string) (st : Probe) : Probe :=
  {| promise := reject err (promise st);
     client := client st |}.

Definition on_close (st : Probe) : Probe :=
  {| promise := reject "Connection closed" (promise st);
     client := client st |}.

Definition dispatch (st : Probe) (ev : SocketEvent) : Probe :=
  match ev with
  | EvConnect => on_connect st
  | EvTimeout => on_timeout st
  | EvError err => on_error err st
  | EvClose => on_close st
  end.

(** [isPortOpen host port timeout], observed after the socket has
    delivered [events].  The source's default for [timeout] is 1000.
    [client.setTimeout] throws on a negative duration and
    [client.connect] on a number outside 0..65535; thrown inside the
    executor of the promise, either rejects it at once, before a
    listener is installed, and the events of the socket are not heard.
    [client] lists the calls that returned. *)
Definition isPortOpen (host : string) (port : Z) (timeout : Z)
    (events : list SocketEvent) : Probe :=
  if timeout <? 0 then
    {| promise := reject "ERR_OUT_OF_RANGE" Pending; client := [] |}
  else if negb (valid_port port) then
    {| promise := reject "ERR_SOCKET_BAD_PORT" Pending;
       client := [SetTimeout timeout] |}
  else
    fold_left dispatch events
      {| promise := Pending;
         client := [SetTimeout timeout; Connect port host] |}.

(** *** closeServer, isServerPortAvailable, waitUntilServerPortIsAvailable *)

(** [closeServer]: the promise resolves whether or not [close] reported
    an error.  Both callers drop this promise without awaiting it. *)
Definition closeServer (srv : Server) (w : World)
    : Promise unit string * World :=
  let '(errClose, _, w') := server_close srv w in
  (resolve tt Pending, w').

(** [isServerPortAvailable]: the two listeners settle [p], [finally]
    closes the server once [p] is settled, and a throw from [listen]
    rejects the promise of the async function. *)
Definition isServerPortAvailable (env : Env) (port : Z) (w : World)
    : Promise bool string * World :=
  let server := createServer in
  match server_listen env port server w with
  | None => (Rejected "ERR_SOCKET_BAD_PORT", w)
  | Some (ev, server', w1) =>
      let p :=
        match ev with
        | EvListening => resolve true Pending
        | EvServerError => resolve false Pending
        end in
      if settled p then (p, snd (closeServer server' w1)) else (p, w1)
  end.

(** The callback [waitUntilServerPortIsAvailable] hands to the retry
    loop: it returns [true] or throws. *)
Definition portIsOpenCallback (env : Env) (port : Z) (w : World)
    : Promise bool string * World :=
  match isServerPortAvailable env port w with
  | (Fulfilled true, w1) => (Fulfilled true, w1)
  | (Fulfilled false, w1) =>
      (Rejected ("Port " +:+ pretty port +:+ " is not open yet"), w1)
  | (other, w1) => (other, w1)
  end.

(** [waitUntilServerPortIsAvailable]; the source's default for [timeout]
    is 1000.  [fuel] bounds the iterations of the retry loop. *)
Definition waitUntilServerPortIsAvailable (env : Env) (fuel : nat)
    (port : Z) (timeout : Z) (w : World)
    : option (Promise bool string * World) :=
  match retryUntilTimeout fuel timeout (portIsOpenCallback env port) 80 w with
  | None => None
  | Some (Fulfilled portIsOpen, w1) =>
      Some (Fulfilled (bool_decide (portIsOpen = Some true)), w1)
  | Some (Rejected e, w1) => Some (Rejected e, w1)
  | Some (Pending, w1) => Some (Pending, w1)
  end.

(** The world in which the [k]-th attempt of the wait starts when every
    earlier attempt failed: 80 ms after the previous one reported. *)
Fixpoint attemptWorld (env : Env) (port : Z) (k : nat) (w : World) : World :=
  match k with
  | O => w
  | S k' =>
      sleep 80 (snd (isServerPortAvailable env port (attemptWorld env port k' w)))
  end.

(** *** suggestPort *)

(** Ports that are considered unsafe by Chrome. *)
Definition UNSAFE_PORTS : list Z :=
  [ 1; 7; 9; 11; 13; 15; 17; 19; 20; 21; 22; 23; 25; 37; 42; 43; 53; 69; 77; 79;
    87; 95; 101; 102; 103; 104; 109; 110; 111; 113; 115; 117; 119; 123; 135; 137;
    139; 143; 161; 179; 389; 427; 465; 512; 513; 514; 515; 526; 530; 531; 532;
    540; 548; 554; 556; 563; 587; 601; 636; 989; 990; 993; 995; 1719; 1720; 1723;
    2049; 3659; 4045; 5060; 5061; 6000; 6566; 6665; 6666; 6667; 6668; 6669; 6697;
    10080 ].

(** [Array.prototype.includes] on an array of integers. *)
Definition includes (l : list Z) (x : Z) : bool := existsb (Z.eqb x) l.

(** [suggestPort]: the [do ... while (true)] loop, one unit of [fuel] per
    iteration; [None] when the fuel runs out before the loop is left. *)
Fixpoint suggestPort (env : Env) (fuel : nat) (w : World)
    : option (Promise Z string * World) :=
  match fuel with
  | O => None
  | S fuel' =>
      let server := createServer in
      match server_listen env 0 server w with
      | None => Some (Rejected "ERR_SOCKET_BAD_PORT", w)
      | Some (EvServerError, server', w1) =>
          Some (Rejected "listen failed", snd (closeServer server' w1))
      | Some (EvListening, server', w1) =>
          (* a listening server has an address *)
          let port := default 0 (address server') in
          let w2 := snd (closeServer server' w1) in
          if negb (includes UNSAFE_PORTS port)
          then Some (Fulfilled port, w2)
          else suggestPort env fuel' w2
      end
  end.

(** *** Settings *)

(** [configShinyPreviewType]: [get("shiny.previewType") || "internal"]. *)
Definition configShinyPreviewType (setting : option string) : string :=
  match setting with
  | Some s => if String.eqb s "" then "internal" else s
  | None => "internal"
  end.

(** *** openBrowser *)

Definition openBrowser (setting : option string) (hostPreview : bool)
    (url : string) : list Event :=
  let previewType := configShinyPreviewType setting in
  if String.eqb previewType "none" then []
  else if String.eqb previewType "external" then
    if String.eqb url "about:blank" then []
    else [OpenExternal url]
  else if String.eqb previewType "internal" && hostPreview then
    [HostPreview url]
  else [ExecuteCommand "simpleBrowser.api.open" url].

(** *** openBrowserWhenReady *)

(** The double nearest to an integer (ties to even): the value a
    JavaScript number holds for it.  It is the integer itself up to
    2^53 in magnitude, which covers every reading of [Date.now()]. *)
Definition Z2float (z : Z) : float :=
  SF2Prim (binary_normalize prec emax z 0 false).

(** The state behind the progress callback: the time of the last report,
    and the increments reported so far. *)
Record Progress : Type := mkProgress {
  lastProgressReport : Z;
  reported : list float
}.

(** [reportProgress]; [now] is what [Date.now()] reads.  The difference
    of two clock readings, the quotient and the product are those of
    double arithmetic; a timeout of zero gives NaN or an infinity. *)
Definition reportProgress (timeout : Z) (st : Progress) (now : Z) : Progress :=
  let increment :=
    (Z2float (now - lastProgressReport st) / Z2float timeout * 100)%float in
  {| lastProgressReport := now;
     reported := reported st ++ [increment] |}.

(** [getTerminalClosedPromise]: resolves [true] once the close of this
    very terminal is reported, and stays pending otherwise. *)
Definition getTerminalClosedPromise (terminal : Terminal)
    (closed : list Terminal) : Promise bool string :=
  if bool_decide (terminal ∈ closed) then resolve true Pending else Pending.

(** The body handed to [withProgress].  Each callback invocation by a
    retry loop reports progress; the retry promises are collected by
    [Promise.all] and, when a terminal is given, raced against its
    close. *)
Definition probingSession (r : Round) (port : Z) (additionalPorts : list Z)
    (terminal : option Terminal) (timeout : Z) : list Event * RaceValue :=
  let progress :=
    fold_left (reportProgress timeout) (callbackTimes r)
      {| lastProgressReport := sessionStart r; reported := [] |} in
  let portsOpen := imap (fun i p => retryResult r i) (port :: additionalPorts) in
  let portsOpenPromise := VArray portsOpen in
  let result :=
    match terminal with
    | None => portsOpenPromise
    | Some t =>
        match getTerminalClosedPromise t (closedTerminals r) with
        | Fulfilled b => VBool b
        | _ => portsOpenPromise
        end
    end in
  (WithProgress "Waiting for Shiny app to start..."
     :: map ProgressReport (reported progress),
   result).

(** The items of the prompt shown after a timeout. *)
Definition promptItems (terminal : option Terminal) : list string :=
  [match terminal with Some _ => "Show Shiny process" | None => "" end;
   "Keep waiting"].

Definition tookLongerMessage (timeout : Z) : string :=
  let timeoutStr := timeout / 1000 in
  "Shiny app took longer than " +:+ pretty timeoutStr
    +:+ "s to start so we have not opened the preview.".

(** [openBrowserWhenReady]: one [Round] of the script is consumed by
    each activation; an activation for which the script holds no round
    leaves the log without a [Return]. *)
Fixpoint openBrowserWhenReady (script : list Round) (port : Z)
    (additionalPorts : list Z) (terminal : option Terminal) (timeout : Z)
    : list Event :=
  Activation port additionalPorts terminal timeout ::
  match script with
  | [] => []
  | r :: script' =>
      if String.eqb (configShinyPreviewType (previewTypeSetting r)) "none"
      then [Return]
      else
        let '(progress, portsOpenResult) :=
          probingSession r port additionalPorts terminal timeout in
        progress ++
        if negb (isArray portsOpenResult)
           || hasExited terminal (exitStatusAfterWait r)
        then
          [ConsoleWarn "[shiny] Terminal has been closed, will not launch browser";
           Return]
        else if (0 <? length (List.filter falsy (elements portsOpenResult)))%nat
        then
          ShowErrorMessage (tookLongerMessage timeout) (promptItems terminal) ::
          if bool_decide (action r = Some "Keep waiting") then
            if hasExited terminal (exitStatusAtDecision r) then
              [ShowErrorMessage
                 "Shiny terminal was closed, please run the app again." [];
               Return]
            else openBrowserWhenReady script' port additionalPorts terminal 30000
          else
            (if bool_decide (action r = Some "Show Shiny process")
             then match terminal with Some t => [TerminalShow t] | None => [] end
             else [])
            ++ [ConsoleWarn
                  "[shiny] Failed to connect to Shiny app, not launching browser";
                Return]
        else
          openBrowser (previewTypeAtOpen r) (hostPreview r) (remoteSafeUrl r port)
          ++ [Return]
  end.

(** *** Reading a log and a script *)

(** The activations recorded in a log, in order. *)
Definition activations (log : list Event)
    : list (Z * list Z * option Terminal * Z) :=
  omap (fun e =>
          match e with
          | Activation port additionalPorts terminal timeout =>
              Some (port, additionalPorts, terminal, timeout)
          | _ => None
          end) log.

(** The increments of the progress reports of a log, in order. *)
Definition increments (log : list Event) : list float :=
  omap (fun e =>
          match e with
          | ProgressReport increment => Some increment
          | _ => None
          end) log.

(** What the user or a mock of the editor API can observe: every event
    but the two markers. *)
Definition observable (e : Event) : bool :=
  match e with
  | Activation _ _ _ _ | Return => false
  | _ => true
  end.

Definition isBrowserAction (e : Event) : bool :=
  match e with
  | OpenExternal _ | HostPreview _ | ExecuteCommand _ _ => true
  | _ => false
  end.

Definition isPrompt (e : Event) : bool :=
  match e with
  | ShowErrorMessage _ _ => true
  | _ => false
  end.

Definition isWarning (e : Event) : bool :=
  match e with
  | ConsoleWarn _ => true
  | _ => false
  end.

Definition isProgress (e : Event) : bool :=
  match e with
  | WithProgress _ | ProgressReport _ => true
  | _ => false
  end.

(** The two messages about a closed terminal. *)
Definition closedWarning : Event :=
  ConsoleWarn "[shiny] Terminal has been closed, will not launch browser".

Definition terminalClosedMessage : Event :=
  ShowErrorMessage "Shiny terminal was closed, please run the app again." [].

(** The close of the terminal settles the race of a round. *)
Definition terminalClosedFirst (r : Round) (terminal : option Terminal) : bool :=
  match terminal with
  | Some t => bool_decide (t ∈ closedTerminals r)
  | None => false
  end.

(** Some retry promise of a round resolved to a falsy value: the wait on
    that port timed out. *)
Definition somePortTimedOut (r : Round) (additionalPorts : list Z) : bool :=
  existsb (fun i => falsy (retryResult r i))
    (seq 0 (S (length additionalPorts))).

(** A round in which the wait runs and times out: the preview is not
    switched off, the ports settle the race, the terminal has not exited
    when the result is inspected, and some port is not open. *)
Definition timesOut (r : Round) (additionalPorts : list Z)
    (terminal : option Terminal) : Prop :=
  configShinyPreviewType (previewTypeSetting r) <> "none"
  /\ terminalClosedFirst r terminal = false
  /\ hasExited terminal (exitStatusAfterWait r) = false
  /\ somePortTimedOut r additionalPorts = true.

(** A round that times out, in which the user picks "Keep waiting" while
    the terminal has not exited. *)
Definition keepsWaiting (r : Round) (additionalPorts : list Z)
    (terminal : option Terminal) : Prop :=
  timesOut r additionalPorts terminal
  /\ action r = Some "Keep waiting"
  /\ hasExited terminal (exitStatusAtDecision r) = false.


(** Incremental progress as the specification words it: a time
    difference as a percentage of [timeout], in double arithmetic. *)
Definition incrementOf (timeout : Z) (delta : Z) : float :=
  (Z2float delta / Z2float timeout * 100)%float.

(** The elapsed fraction of the deadline, as a percentage, computed by
    the same formula from the start of the session. *)
Definition elapsedFraction (timeout start now : Z) : float :=
  incrementOf timeout (now - start).

(** The total a progress bar keeps when it adds up the increments it is
    sent, in double arithmetic. *)
Definition fsum (l : list float) : float := fold_left PrimFloat.add l 0%float.



End NetUtils.

(** ** ProposedFilePreviewProvider *)

Module FilePreview.

(** Modelled from the spec: [FileContent] is declared in ./types, a file
    that is not among the sources; the spec lists its fields as name,
    content and a binary/text flag, and the class reads [name],
    [content] and the optional [type]. *)
Record FileContent : Type := mkFile {
  name : string;
  content : string;
  type : option string
}.

(** The part of a [vscode.Uri] the provider reads. *)
Record Uri : Type := mkUri { path : string }.

(** The values a property read on [this.files] can produce. *)
Inductive Value : Type :=
| VUndefined
| VString (s : string)
| VFile (f : FileContent)
| VInherited (key : string).

(** The properties every object literal inherits from
    [Object.prototype]: functions, and the prototype itself under
    [__proto__]. *)
Definition objectPrototypeKeys : list string :=
  [ "constructor"; "hasOwnProperty"; "isPrototypeOf"; "propertyIsEnumerable";
    "toLocaleString"; "toString"; "valueOf"; "__defineGetter__";
    "__defineSetter__"; "__lookupGetter__"; "__lookupSetter__"; "__proto__" ].

(** The object behind [this.files], created as [{}]: its own properties,
    and the file that an assignment to [__proto__] installed as its
    prototype, if there was one. *)
Record Files : Type := mkFiles {
  own : gmap string FileContent;
  proto : option FileContent
}.

Definition emptyFiles : Files := {| own := ∅; proto := None |}.

(** An own property of a stored copy of a file. *)
Definition fileProperty (f : FileContent) (key : string) : option Value :=
  if String.eqb key "name" then Some (VString (name f))
  else if String.eqb key "content" then Some (VString (content f))
  else if String.eqb key "type" then VString <$> type f
  else None.

(** [this.files[key]]: own properties first, then the prototype chain. *)
Definition getProperty (fs : Files) (key : string) : Value :=
  match own fs !! key with
  | Some f => VFile f
  | None =>
      if String.eqb key "__proto__" then
        match proto fs with
        | Some f => VFile f
        | None => VInherited key
        end
      else
        match proto fs ≫= (fun f => fileProperty f key) with
        | Some v => v
        | None =>
            if bool_decide (key ∈ objectPrototypeKeys)
            then VInherited key
            else VUndefined
        end
  end.

(** [this.files[key] = file]. *)
Definition setProperty (fs : Files) (key : string) (f : FileContent) : Files :=
  if String.eqb key "__proto__"
  then {| own := own fs; proto := Some f |}
  else {| own := <[key := f]> (own fs); proto := proto fs |}.

(** [!v]. *)
Definition falsy (v : Value) : bool :=
  match v with
  | VUndefined => true
  | VString s => String.eqb s ""
  | VFile _ | VInherited _ => false
  end.

(** [v.content]. *)
Definition getContent (v : Value) : Value :=
  match v with
  | VFile f => VString (content f)
  | _ => VUndefined
  end.

(** [addFile]; [join] stands for [path.join], and [None] is the throw on
    a binary file. *)
Definition addFile (join : string -> string -> string) (fs : Files)
    (file : FileContent) (prefixDir : option string) : option Files :=
  if bool_decide (type file = Some "binary") then None
  else
    let fileCopy :=
      match prefixDir with
      | Some dir =>
          if String.eqb dir "" then file
          else {| name := join dir (name file);
                  content := content file;
                  type := type file |}
      | None => file
      end in
    Some (setProperty fs (name fileCopy) fileCopy).

(** [addFiles]: files are added in order; a throw leaves the files added
    before it in place. *)
Fixpoint addFiles (join : string -> string -> string) (fs : Files)
    (files : list FileContent) (prefixDir : option string)
    : Files * bool :=
  match files with
  | [] => (fs, true)
  | file :: rest =>
      match addFile join fs file prefixDir with
      | Some fs' => addFiles join fs' rest prefixDir
      | None => (fs, false)
      end
  end.

Definition provideTextDocumentContent (fs : Files) (uri : Uri) : Value :=
  if String.prefix "/empty/" (path uri) then VString ""
  else
    let file := getProperty fs (path uri) in
    if falsy file then VString ""
    else getContent file.

End FilePreview.

(** ** Sample environments and scripts *)

(** A quiet machine: nothing else listens, a bind takes 3 ms, and the
    operating system hands out 6000, then 50000, for port 0. *)
Definition quietEnv : Env :=
  {| externalBusy := fun _ _ => false;
     bindLatency := fun _ => 3%N;
     ephemeral := fun n => match n with O => Some 6000 | _ => Some 50000 end |}.

Definition freshWorld : World := {| now := 0; held := ∅; listens := 0 |}.

(** Port 8000 is taken by another process until time 200. *)
Definition busyUntil200 : Env :=
  {| externalBusy := fun t p => (p =? 8000) && (t <? 200);
     bindLatency := fun _ => 3%N;
     ephemeral := fun _ => None |}.

(** A session of 10 s in which two retry loops report at 0, 5, 80, 90
    and 160 ms after its start. *)
Definition sampleRound : Round :=
  {| previewTypeSetting := Some "internal";
     sessionStart := 1000;
     callbackTimes := [1000; 1005; 1080; 1090; 1160];
     retryResult := fun _ => None;
     closedTerminals := [];
     exitStatusAfterWait := None;
     action := Some "Keep waiting";
     exitStatusAtDecision := None;
     remoteSafeUrl := fun port => "http://localhost:" +:+ pretty port;
     previewTypeAtOpen := Some "internal";
     hostPreview := false |}.

(** The terminal the app runs in. *)
Definition shinyTerminal : Terminal := {| terminalId := 1 |}.

(** The terminal is closed during the wait, after one probe of the
    port. *)
Definition closedRound : Round :=
  {| previewTypeSetting := None;
     sessionStart := 1000;
     callbackTimes := [1000];
     retryResult := fun _ => None;
     closedTerminals := [shinyTerminal];
     exitStatusAfterWait := Some {| exitCode := Some 0 |};
     action := None;
     exitStatusAtDecision := Some {| exitCode := Some 0 |};
     remoteSafeUrl := fun port => "http://localhost:" +:+ pretty port;
     previewTypeAtOpen := None;
     hostPreview := false |}.

(** The terminal exits while the prompt is open. *)
Definition exitedAtDecisionRound : Round :=
  {| previewTypeSetting := Some "internal";
     sessionStart := 1000;
     callbackTimes := [1000; 1080];
     retryResult := fun _ => None;
     closedTerminals := [];
     exitStatusAfterWait := None;
     action := Some "Keep waiting";
     exitStatusAtDecision := Some {| exitCode := Some 1 |};
     remoteSafeUrl := fun port => "http://localhost:" +:+ pretty port;
     previewTypeAtOpen := Some "internal";
     hostPreview := false |}.


(** ** Further samples and readings *)

(** A machine that has no port left to hand out. *)
Definition exhaustedEnv : Env :=
  {| externalBusy := fun _ _ => false;
     bindLatency := fun _ => 0%N;
     ephemeral := fun _ => None |}.

(** The warning logged when the wait is given up. *)
Definition failedWarning : Event :=
  ConsoleWarn "[shiny] Failed to connect to Shiny app, not launching browser".

(** The preview is switched off. *)
Definition noneRound : Round :=
  {| previewTypeSetting := Some "none";
     sessionStart := 1000;
     callbackTimes := [1000];
     retryResult := fun _ => Some true;
     closedTerminals := [];
     exitStatusAfterWait := None;
     action := None;
     exitStatusAtDecision := None;
     remoteSafeUrl := fun port => "http://localhost:" +:+ pretty port;
     previewTypeAtOpen := Some "none";
     hostPreview := true |}.

(** Both ports are found open at the first probe. *)
Definition readyRound : Round :=
  {| previewTypeSetting := None;
     sessionStart := 1000;
     callbackTimes := [1000; 1002];
     retryResult := fun _ => Some true;
     closedTerminals := [];
     exitStatusAfterWait := None;
     action := None;
     exitStatusAtDecision := None;
     remoteSafeUrl := fun port => "http://localhost:" +:+ pretty port;
     previewTypeAtOpen := None;
     hostPreview := true |}.

(** The port never opens and the user asks to see the process. *)
Definition showProcessRound : Round :=
  {| previewTypeSetting := Some "internal";
     sessionStart := 1000;
     callbackTimes := [1000];
     retryResult := fun _ => None;
     closedTerminals := [];
     exitStatusAfterWait := None;
     action := Some "Show Shiny process";
     exitStatusAtDecision := None;
     remoteSafeUrl := fun port => "http://localhost:" +:+ pretty port;
     previewTypeAtOpen := Some "internal";
     hostPreview := false |}.

(** The name under which [addFile] stores a file. *)
Definition storedName (join : string -> string -> string)
    (file : FilePreview.FileContent) (prefixDir : option string) : string :=
  match prefixDir with
  | Some dir =>
      if String.eqb dir "" then FilePreview.name file
      else join dir (FilePreview.name file)
  | None => FilePreview.name file
  end.

(** A path the provider can serve a file under: not under "/empty/",
    and not the name that reaches the prototype of the table. *)
Definition servablePath (p : string) : Prop :=
  String.prefix "/empty/" p = false /\ p <> "__proto__".

(** [path.join], for the samples: the two parts with a slash between. *)
Definition slashJoin (dir file : string) : string := dir +:+ "/" +:+ file.

(** Files for the samples. *)
Definition appFile : FilePreview.FileContent :=
  {| FilePreview.name := "app.R";
     FilePreview.content := "library(shiny)";
     FilePreview.type := None |}.

Definition appFileRevised : FilePreview.FileContent :=
  {| FilePreview.name := "app.R";
     FilePreview.content := "library(bslib)";
     FilePreview.type := Some "text" |}.

Definition constructorFile : FilePreview.FileContent :=
  {| FilePreview.name := "constructor";
     FilePreview.content := "setClass()";
     FilePreview.type := Some "text" |}.

Definition logoFile : FilePreview.FileContent :=
  {| FilePreview.name := "logo.png";
     FilePreview.content := "";
     FilePreview.type := Some "binary" |}.

(** * Part II: lemmas and theorems *)

Import NetUtils.

(** ** Promises settle once *)

Lemma resolve_settled {A E} (v : A) (p : Promise A E) :
  settled p = true -> resolve v p = p.
Proof. by destruct p. Qed.

Lemma reject_settled {A E} (e : E) (p : Promise A E) :
  settled p = true -> reject e p = p.
Proof. by destruct p. Qed.

(** ** isPortOpen *)

Lemma dispatch_keeps_settled (st : Probe) (ev : SocketEvent) :
  settled (promise st) = true -> promise (dispatch st ev) = promise st.
Proof.
  intros Hs. destruct ev; simpl; auto using resolve_settled, reject_settled.
Qed.

Lemma fold_dispatch_keeps_settled (events : list SocketEvent) :
  forall st, settled (promise st) = true ->
    promise (fold_left dispatch events st) = promise st.
Proof.
  induction events as [|ev events IH]; intros st Hs; simpl; [done|].
  rewrite IH; rewrite dispatch_keeps_settled; done.
Qed.

(** With a duration and a port the socket accepts, the probe is the
    run of its listeners over the events. *)
Lemma isPortOpen_listens host port timeout (events : list SocketEvent) :
  0 <= timeout -> valid_port port = true ->
  isPortOpen host port timeout events
  = fold_left dispatch events
      {| promise := Pending;
         client := [SetTimeout timeout; Connect port host] |}.
Proof.
  intros Ht Hp. unfold isPortOpen. rewrite Hp.
  by replace (timeout <? 0) with false by lia.
Qed.

(** Otherwise the promise is rejected whatever the socket does. *)
Lemma isPortOpen_throws host port timeout (events : list SocketEvent) :
  timeout < 0 \/ valid_port port = false ->
  promise (isPortOpen host port timeout events)
  = if timeout <? 0 then Rejected "ERR_OUT_OF_RANGE"
    else Rejected "ERR_SOCKET_BAD_PORT".
Proof.
  intros Hbad. unfold isPortOpen.
  destruct (timeout <? 0) eqn:Ht; [done|].
  destruct Hbad as [?| ->]; [lia|done].
Qed.

(** The connect callback on a fresh probe fulfils the promise with
    [true] and ends the connection. *)
Lemma isPortOpen_connect host port timeout :
  0 <= timeout -> valid_port port = true ->
  isPortOpen host port timeout [EvConnect]
  = {| promise := Fulfilled true;
       client := [SetTimeout timeout; Connect port host; SocketEnd] |}.
Proof. intros Ht Hp. by rewrite isPortOpen_listens. Qed.

(** C9: once the promise of [isPortOpen] is fulfilled with [true], no
    event the socket emits afterwards ([close] after the probe's own
    [end], [error], [timeout]) changes the outcome: the rejections of the
    other listeners fall on a settled promise. *)
Theorem isPortOpen_success_is_final host port timeout
    (pre post : list SocketEvent) :
  promise (isPortOpen host port timeout pre) = Fulfilled true ->
  promise (isPortOpen host port timeout (pre ++ post)) = Fulfilled true.
Proof.
  intros Hpre.
  destruct (decide (timeout < 0 \/ valid_port port = false)) as [Hbad|Hok].
  - rewrite isPortOpen_throws in Hpre by done. by destruct (timeout <? 0).
  - assert (Ht : 0 <= timeout) by (destruct (decide (0 <= timeout)); [done|];
      exfalso; apply Hok; left; lia).
    assert (Hp : valid_port port = true)
      by (destruct (valid_port port); [done|]; exfalso; apply Hok; by right).
    rewrite isPortOpen_listens in * by done.
    rewrite fold_left_app.
    rewrite fold_dispatch_keeps_settled; [exact Hpre|].
    by rewrite Hpre.
Qed.

Lemma isPortOpen_success_is_final_witness :
  promise (isPortOpen "127.0.0.1" 8000 1000 [EvConnect]) = Fulfilled true
  /\ promise (isPortOpen "127.0.0.1" 8000 1000
                ([EvConnect] ++ [EvClose; EvError "ECONNRESET"; EvTimeout]))
     = Fulfilled true.
Proof.
  split; [reflexivity|].
  apply (isPortOpen_success_is_final "127.0.0.1" 8000 1000 [EvConnect]).
  reflexivity.
Defined.

(** Without a successful connect the same events do reject: what counts
    is the order of the events, the probe can fail. *)
Lemma isPortOpen_close_first :
  promise (isPortOpen "127.0.0.1" 8000 1000 [EvClose; EvConnect])
  = Rejected "Connection closed".
Proof. reflexivity. Qed.

(** ** openBrowser *)

(** C7: with the preview type set to "external", [openBrowser] does
    nothing at all for "about:blank" and hands every other URL to the
    external-open facility, and does nothing else. *)
Theorem openBrowser_external (hostPreview : bool) (url : string) :
  openBrowser (Some "external") hostPreview "about:blank" = []
  /\ (url <> "about:blank" ->
      openBrowser (Some "external") hostPreview url = [OpenExternal url]).
Proof.
  split; [reflexivity|]. intros Hurl.
  unfold openBrowser. simpl.
  destruct (String.eqb_spec url "about:blank") as [->|_]; [done|reflexivity].
Qed.

Lemma openBrowser_external_witness :
  "http://localhost:8000" <> "about:blank"
  /\ openBrowser (Some "external") true "about:blank" = []
  /\ openBrowser (Some "external") true "http://localhost:8000"
     = [OpenExternal "http://localhost:8000"].
Proof.
  assert (Hurl : "http://localhost:8000" <> "about:blank") by discriminate.
  split; [exact Hurl|].
  destruct (openBrowser_external true "http://localhost:8000") as [Hblank Hopen].
  split; [exact Hblank|exact (Hopen Hurl)].
Defined.

(** The other preview types, for comparison. *)
Lemma openBrowser_none hostPreview url :
  openBrowser (Some "none") hostPreview url = [].
Proof. reflexivity. Qed.

Lemma openBrowser_internal_hook url :
  openBrowser (Some "internal") true url = [HostPreview url]
  /\ openBrowser None true url = [HostPreview url].
Proof. split; reflexivity. Qed.

Lemma openBrowser_internal_fallback url :
  openBrowser (Some "internal") false url
  = [ExecuteCommand "simpleBrowser.api.open" url].
Proof. reflexivity. Qed.

(** ** Listeners: what [listen] and [close] do to the world *)

Lemma bind_spec env p srv w ev srv' w' :
  bind env p srv w = (ev, srv', w') ->
  now w' = now w /\ listens w' = listens w /\
  ((ev = EvListening /\ srv' = {| address := Some p |}
    /\ (held w' = {[p]} ∪ held w) /\ (p ∉ held w)
    /\ externalBusy env (now w) p = false)
   \/ (ev = EvServerError /\ srv' = srv /\ held w' = held w
       /\ (p ∈ held w \/ externalBusy env (now w) p = true))).
Proof.
  unfold bind. case_bool_decide as Hin; simpl.
  - intros [= <- <- <-]. do 2 (split; [done|]). right. auto.
  - destruct (externalBusy env (now w) p) eqn:Hbusy; simpl;
      intros [= <- <- <-]; simpl; do 2 (split; [done|]).
    + right. auto.
    + left. auto.
Qed.

(** The outcome of [listen] on a fresh server: either the server holds a
    port that nothing of this process held before, or it holds nothing
    and the held ports are unchanged. *)
Lemma server_listen_spec env port w ev srv' w1 :
  server_listen env port createServer w = Some (ev, srv', w1) ->
  valid_port port = true
  /\ now w1 = now w + Z.of_N (bindLatency env (now w))
  /\ ((ev = EvListening /\ exists p, srv' = {| address := Some p |}
       /\ (held w1 = {[p]} ∪ held w) /\ p ∉ held w)
      \/ (ev = EvServerError /\ srv' = createServer /\ held w1 = held w)).
Proof.
  unfold server_listen.
  destruct (valid_port port) eqn:Hv; simpl; [|done].
  destruct (port =? 0) eqn:H0.
  - destruct (ephemeral env (listens w)) as [p|] eqn:He.
    + destruct (bind env p createServer _) as [[ev0 srv0] w0] eqn:Hb.
      intros [= <- <- <-]. apply bind_spec in Hb. simpl in Hb.
      destruct Hb as (Hn & _ & Hb). simpl. rewrite Hn.
      do 2 (split; [done|]).
      destruct Hb as [(-> & -> & Hh & Hp & _)|(-> & -> & Hh & _)].
      * left. split; [done|]. by exists p.
      * right. done.
    + intros [= <- <- <-]. simpl. do 2 (split; [done|]). right. done.
  - destruct (bind env port createServer w) as [[ev0 srv0] w0] eqn:Hb.
    intros [= <- <- <-]. apply bind_spec in Hb.
    destruct Hb as (Hn & _ & Hb). simpl. rewrite Hn.
    do 2 (split; [done|]).
    destruct Hb as [(-> & -> & Hh & Hp & _)|(-> & -> & Hh & _)].
    + left. split; [done|]. by exists port.
    + right. done.
Qed.

Lemma server_listen_invalid env port srv w :
  valid_port port = false -> server_listen env port srv w = None.
Proof. unfold server_listen. by intros ->. Qed.

Lemma listen_free_port env port w :
  1 <= port <= 65535 -> port ∉ held w ->
  externalBusy env (now w) port = false ->
  exists w1,
    server_listen env port createServer w
    = Some (EvListening, {| address := Some port |}, w1).
Proof.
  intros Hr Hh Hb. unfold server_listen, valid_port, bind.
  replace (0 <=? port) with true by lia.
  replace (port <=? 65535) with true by lia.
  replace (port =? 0) with false by lia. simpl.
  rewrite bool_decide_eq_false_2 by done. rewrite Hb. simpl. eauto.
Qed.

Lemma release_after_bind (p : Z) (X : gset Z) :
  p ∉ X -> ({[p]} ∪ X) ∖ {[p]} = X.
Proof.
  intros Hp.
  rewrite difference_union_distr_l_L, difference_diag_L, (left_id_L ∅ (∪)).
  apply difference_disjoint_L. by apply disjoint_singleton_r.
Qed.

(** [closeServer] on the server [listen] returned gives back the held
    ports of before the [listen]. *)
Lemma closeServer_after_listen env port w ev srv' w1 :
  server_listen env port createServer w = Some (ev, srv', w1) ->
  held (snd (closeServer srv' w1)) = held w
  /\ now (snd (closeServer srv' w1)) = now w1
  /\ listens (snd (closeServer srv' w1)) = listens w1.
Proof.
  intros Hl. apply server_listen_spec in Hl as (_ & _ & Hl).
  unfold closeServer, server_close.
  destruct Hl as [(-> & p & -> & Hh & Hp)|(-> & -> & Hh)]; simpl.
  - split; [|done]. rewrite Hh. by apply release_after_bind.
  - done.
Qed.

(** ** isServerPortAvailable *)

Lemma isServerPortAvailable_listening env port w srv w1 :
  server_listen env port createServer w = Some (EvListening, srv, w1) ->
  isServerPortAvailable env port w = (Fulfilled true, snd (closeServer srv w1)).
Proof. unfold isServerPortAvailable. by intros ->. Qed.

Lemma isServerPortAvailable_error env port w srv w1 :
  server_listen env port createServer w = Some (EvServerError, srv, w1) ->
  isServerPortAvailable env port w = (Fulfilled false, snd (closeServer srv w1)).
Proof. unfold isServerPortAvailable. by intros ->. Qed.

Lemma isServerPortAvailable_throw env port w :
  server_listen env port createServer w = None ->
  isServerPortAvailable env port w = (Rejected "ERR_SOCKET_BAD_PORT", w).
Proof. unfold isServerPortAvailable. by intros ->. Qed.

(** The probe leaves the held ports as it found them, and the clock
    never runs backwards over it. *)
Lemma isServerPortAvailable_frame env port w :
  held (snd (isServerPortAvailable env port w)) = held w
  /\ now w <= now (snd (isServerPortAvailable env port w)).
Proof.
  destruct (server_listen env port createServer w) as [[[ev srv] w1]|] eqn:Hl.
  - pose proof (closeServer_after_listen _ _ _ _ _ _ Hl) as (Hh & Hn & _).
    pose proof (server_listen_spec _ _ _ _ _ _ Hl) as (_ & Hn1 & _).
    pose proof (N2Z.is_nonneg (bindLatency env (now w))) as Hlat.
    assert (now w <= now (snd (closeServer srv w1))) by (rewrite Hn, Hn1; lia).
    destruct ev.
    + by rewrite (isServerPortAvailable_listening _ _ _ _ _ Hl).
    + by rewrite (isServerPortAvailable_error _ _ _ _ _ Hl).
  - rewrite (isServerPortAvailable_throw _ _ _ Hl). simpl. split; [done|lia].
Qed.

(** The probe never hangs: its promise is settled when it returns. *)
Lemma isServerPortAvailable_settled env port w :
  settled (fst (isServerPortAvailable env port w)) = true.
Proof.
  unfold isServerPortAvailable.
  destruct (server_listen env port createServer w) as [[[[] srv] w1]|]; done.
Qed.

(** C3: [isServerPortAvailable] resolves [true] when [listen] reports
    "listening" and [false] when it reports "error"; on either outcome
    the server it created has been closed when the call returns, so the
    ports this process holds are those of before the call; hence two
    successive calls on a port that is free both times both report
    [true]. *)
Theorem isServerPortAvailable_releases (env : Env) (port : Z) (w : World) :
  (forall srv w1,
     server_listen env port createServer w = Some (EvListening, srv, w1) ->
     fst (isServerPortAvailable env port w) = Fulfilled true)
  /\ (forall srv w1,
        server_listen env port createServer w = Some (EvServerError, srv, w1) ->
        fst (isServerPortAvailable env port w) = Fulfilled false)
  /\ held (snd (isServerPortAvailable env port w)) = held w
  /\ (1 <= port <= 65535 -> port ∉ held w ->
      externalBusy env (now w) port = false ->
      externalBusy env (now (snd (isServerPortAvailable env port w))) port
      = false ->
      fst (isServerPortAvailable env port w) = Fulfilled true
      /\ fst (isServerPortAvailable env port
                (snd (isServerPortAvailable env port w))) = Fulfilled true).
Proof.
  split; [|split; [|split]].
  - intros srv w1 Hl. by rewrite (isServerPortAvailable_listening _ _ _ _ _ Hl).
  - intros srv w1 Hl. by rewrite (isServerPortAvailable_error _ _ _ _ _ Hl).
  - apply isServerPortAvailable_frame.
  - intros Hr Hh Hb1 Hb2.
    destruct (listen_free_port env port w Hr Hh Hb1) as [w1 Hl1].
    split; [by rewrite (isServerPortAvailable_listening _ _ _ _ _ Hl1)|].
    set (w' := snd (isServerPortAvailable env port w)) in *.
    assert (Hh' : port ∉ held w').
    { unfold w'. by rewrite (proj1 (isServerPortAvailable_frame env port w)). }
    destruct (listen_free_port env port w' Hr Hh' Hb2) as [w2 Hl2].
    by rewrite (isServerPortAvailable_listening _ _ _ _ _ Hl2).
Qed.

Lemma isServerPortAvailable_releases_witness :
  fst (isServerPortAvailable quietEnv 8000 freshWorld) = Fulfilled true
  /\ fst (isServerPortAvailable quietEnv 8000
            (snd (isServerPortAvailable quietEnv 8000 freshWorld)))
     = Fulfilled true.
Proof.
  apply (isServerPortAvailable_releases quietEnv 8000 freshWorld).
  - lia.
  - apply not_elem_of_empty.
  - reflexivity.
  - reflexivity.
Defined.

(** A port another process holds is reported as not available, and the
    failed listener is closed all the same. *)
Lemma isServerPortAvailable_busy_port w :
  isServerPortAvailable
    {| externalBusy := fun _ p => p =? 8000;
       bindLatency := fun _ => 3%N;
       ephemeral := fun _ => None |} 8000 w
  = (Fulfilled false, advance 3 w).
Proof.
  unfold isServerPortAvailable, server_listen, bind. simpl.
  rewrite orb_true_r. simpl. by destruct w.
Qed.

(** A number that is not a port makes [listen] throw: the call rejects
    and no listener exists. *)
Lemma isServerPortAvailable_bad_port env w :
  isServerPortAvailable env 70000 w = (Rejected "ERR_SOCKET_BAD_PORT", w).
Proof. reflexivity. Qed.

(** ** suggestPort *)

Lemma includes_spec (l : list Z) (x : Z) : includes l x = true <-> x ∈ l.
Proof.
  unfold includes. rewrite existsb_exists, list_elem_of_In. split.
  - intros (y & Hy & Heq). apply Z.eqb_eq in Heq. by subst.
  - intros Hx. exists x. split; [done|]. apply Z.eqb_refl.
Qed.

(** [listen] on port 0 consumes one answer of the operating system, and
    a server that reports "listening" holds exactly the port handed
    out. *)
Lemma server_listen_zero_spec env w ev srv' w1 :
  server_listen env 0 createServer w = Some (ev, srv', w1) ->
  listens w1 = S (listens w)
  /\ (ev = EvListening ->
      exists q, ephemeral env (listens w) = Some q
                /\ srv' = {| address := Some q |}).
Proof.
  unfold server_listen. simpl.
  destruct (ephemeral env (listens w)) as [q|] eqn:He.
  - destruct (bind env q createServer _) as [[ev0 srv0] w0] eqn:Hb.
    intros [= <- <- <-]. apply bind_spec in Hb. simpl in Hb.
    destruct Hb as (_ & Hls & Hb). simpl. split; [done|].
    intros ->. destruct Hb as [(_ & -> & _)|(? & _)]; [|done].
    by exists q.
  - intros [= <- <- <-]. simpl. split; [done|]. done.
Qed.

(** One iteration of the loop of [suggestPort]. *)
Lemma suggestPort_step env fuel w :
  suggestPort env (S fuel) w =
  match server_listen env 0 createServer w with
  | None => Some (Rejected "ERR_SOCKET_BAD_PORT", w)
  | Some (EvServerError, server', w1) =>
      Some (Rejected "listen failed", snd (closeServer server' w1))
  | Some (EvListening, server', w1) =>
      if negb (includes UNSAFE_PORTS (default 0 (address server')))
      then Some (Fulfilled (default 0 (address server')),
                 snd (closeServer server' w1))
      else suggestPort env fuel (snd (closeServer server' w1))
  end.
Proof. reflexivity. Qed.

(** C5: a port [suggestPort] returns is not on the blocklist, and is in
    [1, 65535] when the operating system hands out ports of that range;
    it is the first candidate that is not on the blocklist: every
    candidate before it was on the blocklist and made the loop ask for
    another one.  The listeners of all iterations are closed. *)
Theorem suggestPort_safe (env : Env) (fuel : nat) (w w' : World) (p : Z) :
  (forall n q, ephemeral env n = Some q -> 1 <= q <= 65535) ->
  suggestPort env fuel w = Some (Fulfilled p, w') ->
  1 <= p <= 65535
  /\ (p ∉ UNSAFE_PORTS)
  /\ held w' = held w
  /\ exists k : nat,
       (k < fuel)%nat
       /\ ephemeral env (listens w + k) = Some p
       /\ listens w' = S (listens w + k)
       /\ forall j : nat, (j < k)%nat ->
            exists q, ephemeral env (listens w + j) = Some q
                      /\ q ∈ UNSAFE_PORTS.
Proof.
  intros Hrange. revert w.
  induction fuel as [|fuel IH]; intros w Hs; [done|].
  rewrite suggestPort_step in Hs.
  destruct (server_listen env 0 createServer w) as [[[ev srv] w1]|] eqn:Hl;
    [|done].
  pose proof (closeServer_after_listen _ _ _ _ _ _ Hl) as (Hh & _ & Hls).
  pose proof (server_listen_zero_spec _ _ _ _ _ Hl) as (Hl1 & Hq).
  destruct ev; [|done].
  destruct (Hq eq_refl) as (q & He & ->).
  change (default 0 (address {| address := Some q |})) with q in Hs.
  destruct (includes UNSAFE_PORTS q) eqn:Hinc; cbn [negb] in Hs.
  - apply IH in Hs as (Hp & Hsafe & Hh' & k & Hk & Hek & Hlk & Hbefore).
    rewrite Hls, Hl1 in Hek, Hlk, Hbefore.
    split; [done|]. split; [done|]. split; [by rewrite Hh', Hh|].
    exists (S k). split; [lia|].
    split; [by rewrite <- Hek; f_equal; lia|].
    split; [by rewrite Hlk; f_equal; lia|].
    intros [|j] Hj.
    + exists q. rewrite Nat.add_0_r. split; [done|]. by apply includes_spec.
    + destruct (Hbefore j ltac:(lia)) as (q' & Hq' & Hin).
      exists q'. split; [|done]. rewrite <- Hq'. f_equal. lia.
  - injection Hs as <- <-.
    split; [by eapply Hrange|].
    split; [by rewrite <- includes_spec, Hinc|].
    split; [done|].
    exists O. rewrite Nat.add_0_r.
    split; [lia|]. split; [done|]. split; [exact Hl1|].
    intros j Hj. lia.
Qed.

Lemma suggestPort_safe_witness :
  (forall n q, ephemeral quietEnv n = Some q -> 1 <= q <= 65535)
  /\ suggestPort quietEnv 2 freshWorld
     = Some (Fulfilled 50000, {| now := 6; held := ∅; listens := 2 |})
  /\ 1 <= 50000 <= 65535
  /\ 50000 ∉ UNSAFE_PORTS.
Proof.
  assert (Hrange : forall n q, ephemeral quietEnv n = Some q -> 1 <= q <= 65535).
  { intros [|n] q [= <-]; lia. }
  assert (Hrun : suggestPort quietEnv 2 freshWorld
                 = Some (Fulfilled 50000,
                         {| now := 6; held := ∅; listens := 2 |})).
  { vm_compute. reflexivity. }
  split; [exact Hrange|]. split; [exact Hrun|].
  pose proof (suggestPort_safe quietEnv 2 freshWorld _ 50000 Hrange Hrun)
    as (Hp & Hsafe & _).
  split; [exact Hp|exact Hsafe].
Defined.

(** [listen] on port 0 succeeds when the port handed out is free. *)
Lemma listen_zero_free env w q :
  ephemeral env (listens w) = Some q ->
  q ∉ held w ->
  externalBusy env (now w) q = false ->
  exists w1,
    server_listen env 0 createServer w
    = Some (EvListening, {| address := Some q |}, w1)
    /\ listens w1 = S (listens w).
Proof.
  intros He Hh Hb. unfold server_listen, bind. simpl. rewrite He. simpl.
  rewrite bool_decide_eq_false_2 by done. rewrite Hb. simpl. eauto.
Qed.

(** X4: the loop does leave: on a machine where nothing refuses a bind,
    if the first [k] candidates are on the blocklist and the next one is
    not, [k + 1] iterations return that one. *)
Lemma suggestPort_returns env (k : nat) (p : Z) :
  (forall t q, externalBusy env t q = false) ->
  p ∉ UNSAFE_PORTS ->
  forall (w : World) (fuel : nat),
    held w = ∅ ->
    (forall j : nat, (j < k)%nat ->
       exists q, ephemeral env (listens w + j) = Some q /\ q ∈ UNSAFE_PORTS) ->
    ephemeral env (listens w + k) = Some p ->
    (k < fuel)%nat ->
    exists w', suggestPort env fuel w = Some (Fulfilled p, w').
Proof.
  intros Hfree Hsafe. induction k as [|k IH]; intros w fuel Hheld Hbefore Hp Hfuel;
    (destruct fuel as [|fuel]; [lia|]); rewrite suggestPort_step.
  - rewrite Nat.add_0_r in Hp.
    destruct (listen_zero_free env w p Hp) as (w1 & -> & _);
      [rewrite Hheld; apply not_elem_of_empty|apply Hfree|].
    change (default 0 (address {| address := Some p |})) with p.
    replace (includes UNSAFE_PORTS p) with false; [cbn [negb]; eauto|].
    symmetry. apply not_true_is_false. by rewrite includes_spec.
  - destruct (Hbefore O ltac:(lia)) as (q & Hq & Hunsafe).
    rewrite Nat.add_0_r in Hq.
    destruct (listen_zero_free env w q Hq) as (w1 & Hl & Hl1);
      [rewrite Hheld; apply not_elem_of_empty|apply Hfree|].
    rewrite Hl.
    change (default 0 (address {| address := Some q |})) with q.
    replace (includes UNSAFE_PORTS q) with true
      by (symmetry; by apply includes_spec).
    cbn [negb].
    pose proof (closeServer_after_listen _ _ _ _ _ _ Hl) as (Hh & _ & Hls).
    apply IH.
    + by rewrite Hh.
    + intros j Hj. rewrite Hls, Hl1.
      destruct (Hbefore (S j) ltac:(lia)) as (q' & Hq' & Hin).
      exists q'. split; [|done]. rewrite <- Hq'. f_equal. lia.
    + rewrite Hls, Hl1. rewrite <- Hp. f_equal. lia.
    + lia.
Qed.

(** The first candidate of [quietEnv], 6000, is on the blocklist: one
    iteration does not return it, the second returns the next one. *)
Lemma suggestPort_skips_unsafe :
  suggestPort quietEnv 1 freshWorld = None
  /\ suggestPort quietEnv 2 freshWorld
     = Some (Fulfilled 50000, {| now := 6; held := ∅; listens := 2 |}).
Proof. split; vm_compute; reflexivity. Qed.

(** A failing [listen] on port 0 makes [suggestPort] throw. *)
Lemma suggestPort_listen_error w :
  suggestPort {| externalBusy := fun _ _ => false;
                 bindLatency := fun _ => 0%N;
                 ephemeral := fun _ => None |} 1 w
  = Some (Rejected "listen failed",
          {| now := now w + 0; held := held w; listens := S (listens w) |}).
Proof. reflexivity. Qed.

(** ** waitUntilServerPortIsAvailable *)

Section Wait.

Variable env : Env.
Variable port : Z.

(** The callback returns [true] when the probe does, and throws
    otherwise; it never hangs. *)
Lemma portIsOpenCallback_spec (w : World) :
  (fst (isServerPortAvailable env port w) = Fulfilled true
   /\ portIsOpenCallback env port w
      = (Fulfilled true, snd (isServerPortAvailable env port w)))
  \/ (fst (isServerPortAvailable env port w) <> Fulfilled true
      /\ exists e, portIsOpenCallback env port w
                   = (Rejected e, snd (isServerPortAvailable env port w))).
Proof.
  pose proof (isServerPortAvailable_settled env port w) as Hs.
  unfold portIsOpenCallback.
  destruct (isServerPortAvailable env port w) as [[|[]|e] w1]; simpl in *.
  - done.
  - by left.
  - right. split; [done|]. eauto.
  - right. split; [done|]. eauto.
Qed.

Lemma attemptWorld_held (k : nat) (w : World) :
  held (attemptWorld env port k w) = held w.
Proof.
  induction k as [|k IH]; [done|]. simpl.
  by rewrite (proj1 (isServerPortAvailable_frame env port _)).
Qed.

(** Two consecutive attempts are at least 80 ms apart. *)
Lemma attemptWorld_cadence (k : nat) (w : World) :
  now (attemptWorld env port k w) + 80 <= now (attemptWorld env port (S k) w).
Proof.
  simpl.
  pose proof (proj2 (isServerPortAvailable_frame env port
                       (attemptWorld env port k w))). lia.
Qed.

Lemma attemptWorld_mono (j k : nat) (w : World) :
  (j <= k)%nat ->
  now (attemptWorld env port j w) <= now (attemptWorld env port k w).
Proof.
  induction 1 as [|k Hle IH]; [lia|].
  pose proof (attemptWorld_cadence k w). lia.
Qed.

(** The retry loop, entered for the [k]-th attempt. *)
Lemma retryLoop_wait (timeout : Z) (w : World) (fuel : nat) :
  forall k : nat,
    (1 <= fuel)%nat ->
    timeout - (now (attemptWorld env port k w) - now w)
      <= 80 * (Z.of_nat fuel - 1) ->
    exists (r : option bool) (w' : World),
      retryLoop fuel (now w) timeout (portIsOpenCallback env port) 80
        (attemptWorld env port k w) = Some (Fulfilled r, w')
      /\ (r = Some true \/ r = None)
      /\ (r = Some true <->
          exists k', (k <= k')%nat
            /\ now (attemptWorld env port k' w) - now w < timeout
            /\ fst (isServerPortAvailable env port (attemptWorld env port k' w))
               = Fulfilled true)
      /\ (r = None -> timeout <= now w' - now w)
      /\ held w' = held w.
Proof.
  induction fuel as [|fuel IH]; intros k Hfuel Hrem; [lia|].
  set (wk := attemptWorld env port k w) in *.
  cbn [retryLoop]. fold wk.
  destruct (Z.ltb_spec (now wk - now w) timeout) as [Hlt|Hge].
  - destruct (portIsOpenCallback_spec wk) as [[Hok ->]|[Hko [e ->]]].
    + exists (Some true), (snd (isServerPortAvailable env port wk)).
      split; [done|]. split; [by left|]. split; [|split; [done|]].
      * split; [|done]. intros _. exists k. by fold wk.
      * rewrite (proj1 (isServerPortAvailable_frame env port wk)).
        apply attemptWorld_held.
    + change (sleep 80 (snd (isServerPortAvailable env port wk)))
        with (attemptWorld env port (S k) w).
      pose proof (attemptWorld_cadence k w) as Hcad. fold wk in Hcad.
      destruct (IH (S k)) as (r & w' & Hrun & Hr & Hiff & Hnone & Hheld);
        [lia|lia|].
      exists r, w'. split; [done|]. split; [done|].
      split; [|split; done].
      rewrite Hiff. split.
      * intros (k' & Hk' & Hrest). exists k'. split; [lia|done].
      * intros (k' & Hk' & Ht & Hs).
        destruct (decide (k' = k)) as [->|Hne]; [by fold wk in Hs|].
        exists k'. split; [lia|done].
  - exists None, wk. split; [done|]. split; [by right|].
    split; [|split; [intros _; lia|apply attemptWorld_held]].
    split; [done|]. intros (k' & Hk' & Ht & _).
    pose proof (attemptWorld_mono k k' w Hk') as Hm. fold wk in Hm. lia.
Qed.

End Wait.

(** C4: with the loop given enough iterations for [timeout] at the 80 ms
    cadence, [waitUntilServerPortIsAvailable] returns a boolean: neither
    absence, nor an exception, nor a hanging promise.  It is [true]
    exactly when some attempt, started before [timeout] ms had elapsed,
    found the port bindable, and [false] only once the deadline has
    passed.  The attempts are those of [attemptWorld]: each starts 80 ms
    after the previous one reported. *)
Theorem waitUntilServerPortIsAvailable_boolean (env : Env) (port timeout : Z)
    (w : World) (fuel : nat) :
  (1 <= fuel)%nat ->
  timeout <= 80 * (Z.of_nat fuel - 1) ->
  exists (b : bool) (w' : World),
    waitUntilServerPortIsAvailable env fuel port timeout w
    = Some (Fulfilled b, w')
    /\ (b = true <->
        exists k : nat,
          now (attemptWorld env port k w) - now w < timeout
          /\ fst (isServerPortAvailable env port (attemptWorld env port k w))
             = Fulfilled true)
    /\ (b = false -> timeout <= now w' - now w)
    /\ held w' = held w.
Proof.
  intros Hfuel Hrem.
  destruct (retryLoop_wait env port timeout w fuel O Hfuel)
    as (r & w' & Hrun & Hr & Hiff & Hnone & Hheld).
  { simpl. lia. }
  simpl in Hrun.
  exists (bool_decide (r = Some true)), w'.
  unfold waitUntilServerPortIsAvailable, retryUntilTimeout. rewrite Hrun.
  split; [done|]. split; [|split; [|done]].
  - rewrite bool_decide_eq_true, Hiff. split.
    + intros (k & _ & Hk). by exists k.
    + intros (k & Hk). exists k. split; [lia|done].
  - rewrite bool_decide_eq_false. intros Hn. apply Hnone.
    destruct Hr; [done|done].
Qed.

Lemma waitUntilServerPortIsAvailable_boolean_witness :
  (1 <= 14)%nat
  /\ 1000 <= 80 * (Z.of_nat 14 - 1)
  /\ exists (b : bool) (w' : World),
       waitUntilServerPortIsAvailable busyUntil200 14 8000 1000 freshWorld
       = Some (Fulfilled b, w').
Proof.
  assert (H1 : (1 <= 14)%nat) by lia.
  assert (H2 : 1000 <= 80 * (Z.of_nat 14 - 1)) by lia.
  split; [exact H1|]. split; [exact H2|].
  destruct (waitUntilServerPortIsAvailable_boolean
              busyUntil200 8000 1000 freshWorld 14 H1 H2)
    as (b & w' & Hrun & _).
  exists b, w'. exact Hrun.
Defined.

(** The same wait, run: the port is found free by the fourth attempt, at
    time 249; with a deadline of 100 ms the answer is [false], at time
    166, after two attempts. *)
Lemma waitUntilServerPortIsAvailable_runs :
  waitUntilServerPortIsAvailable busyUntil200 14 8000 1000 freshWorld
  = Some (Fulfilled true, {| now := 252; held := ∅; listens := 0 |})
  /\ waitUntilServerPortIsAvailable busyUntil200 14 8000 100 freshWorld
     = Some (Fulfilled false, {| now := 166; held := ∅; listens := 0 |})
  /\ waitUntilServerPortIsAvailable busyUntil200 14 70000 100 freshWorld
     = Some (Fulfilled false, {| now := 160; held := ∅; listens := 0 |}).
Proof. repeat split; vm_compute; reflexivity. Qed.

(** ** The probing session and its progress reports *)



(** The log of a session: the notification, then one report for each
    invocation of the callback. *)
Lemma probingSession_log r port additionalPorts terminal timeout :
  fst (probingSession r port additionalPorts terminal timeout)
  = WithProgress "Waiting for Shiny app to start..."
      :: map ProgressReport
           (reported
              (fold_left (reportProgress timeout) (callbackTimes r)
                 {| lastProgressReport := sessionStart r; reported := [] |})).
Proof. reflexivity. Qed.





(** The numbers of this session, as the program computes them: the
    increments add up to 0.30000000000000004, the elapsed fraction is
    0.3 (the double nearest to it). *)
Lemma progress_sum_is_rounded_values :
  Prim2SF (fsum [incrementOf 1000 1; incrementOf 1000 2])
  = S754_finite false 5404319552844596 (-54)
  /\ Prim2SF (elapsedFraction 1000 1000 1003)
     = S754_finite false 5404319552844595 (-54).
Proof. split; vm_compute; reflexivity. Qed.

(** With a deadline of zero the division is by zero: the first report
    of [sampleRound], made at the start of the session, carries NaN, the
    later ones an infinity. *)
Lemma progress_reports_zero_deadline :
  increments (fst (probingSession sampleRound 8000 [] None 0))
  = [nan; infinity; infinity; infinity; infinity].
Proof. vm_compute. reflexivity. Qed.

(** ** openBrowserWhenReady, one activation at a time *)

Lemma probingSession_result r port additionalPorts terminal timeout :
  snd (probingSession r port additionalPorts terminal timeout)
  = if terminalClosedFirst r terminal then VBool true
    else VArray (imap (fun i _ => retryResult r i) (port :: additionalPorts)).
Proof.
  unfold probingSession, terminalClosedFirst, getTerminalClosedPromise.
  cbn [snd]. destruct terminal as [t|]; [|done].
  by case_bool_decide.
Qed.

Lemma filter_map_nonempty {A B} (g : B -> bool) (f : A -> B) (l : list A) :
  (0 <? length (List.filter g (map f l)))%nat = existsb (fun x => g (f x)) l.
Proof.
  induction l as [|x l IH]; [done|]. simpl.
  destruct (g (f x)); [done|]. exact IH.
Qed.

Lemma somePortTimedOut_spec r (port : Z) (additionalPorts : list Z) :
  (0 <? length (List.filter falsy
                  (imap (fun i _ => retryResult r i) (port :: additionalPorts))))%nat
  = somePortTimedOut r additionalPorts.
Proof.
  rewrite (imap_seq_0 (port :: additionalPorts) (retryResult r)).
  apply (filter_map_nonempty falsy (retryResult r)).
Qed.

(** The body of [openBrowserWhenReady], read off a round of the script. *)
Lemma openBrowserWhenReady_round r script port additionalPorts terminal timeout :
  openBrowserWhenReady (r :: script) port additionalPorts terminal timeout
  = Activation port additionalPorts terminal timeout ::
    if String.eqb (configShinyPreviewType (previewTypeSetting r)) "none"
    then [Return]
    else
      fst (probingSession r port additionalPorts terminal timeout) ++
      if terminalClosedFirst r terminal
         || hasExited terminal (exitStatusAfterWait r)
      then
        [ConsoleWarn "[shiny] Terminal has been closed, will not launch browser";
         Return]
      else if somePortTimedOut r additionalPorts then
        ShowErrorMessage (tookLongerMessage timeout) (promptItems terminal) ::
        if bool_decide (action r = Some "Keep waiting") then
          if hasExited terminal (exitStatusAtDecision r) then
            [ShowErrorMessage
               "Shiny terminal was closed, please run the app again." [];
             Return]
          else openBrowserWhenReady script port additionalPorts terminal 30000
        else
          (if bool_decide (action r = Some "Show Shiny process")
           then match terminal with Some t => [TerminalShow t] | None => [] end
           else [])
          ++ [ConsoleWarn
                "[shiny] Failed to connect to Shiny app, not launching browser";
              Return]
      else
        openBrowser (previewTypeAtOpen r) (hostPreview r) (remoteSafeUrl r port)
        ++ [Return].
Proof.
  cbn [openBrowserWhenReady]. f_equal.
  destruct (String.eqb _ "none"); [done|].
  pose proof (probingSession_result r port additionalPorts terminal timeout) as Hres.
  destruct (probingSession r port additionalPorts terminal timeout)
    as [progress result].
  cbn [fst snd] in *. subst result. f_equal.
  destruct (terminalClosedFirst r terminal); [done|].
  cbn [isArray negb orb elements].
  destruct (hasExited terminal (exitStatusAfterWait r)); [done|].
  by rewrite somePortTimedOut_spec.
Qed.

Lemma preview_not_none (r : Round) :
  configShinyPreviewType (previewTypeSetting r) <> "none" ->
  String.eqb (configShinyPreviewType (previewTypeSetting r)) "none" = false.
Proof. intros H. by apply String.eqb_neq. Qed.

(** A round that keeps waiting hands over to the next activation. *)
Lemma keepsWaiting_round r script port additionalPorts terminal timeout :
  keepsWaiting r additionalPorts terminal ->
  openBrowserWhenReady (r :: script) port additionalPorts terminal timeout
  = Activation port additionalPorts terminal timeout
    :: fst (probingSession r port additionalPorts terminal timeout)
    ++ ShowErrorMessage (tookLongerMessage timeout) (promptItems terminal)
    :: openBrowserWhenReady script port additionalPorts terminal 30000.
Proof.
  intros ((Hpt & Hrace & Hexit & Hto) & Hact & Hdec).
  rewrite openBrowserWhenReady_round.
  rewrite (preview_not_none r Hpt), Hrace, Hexit, Hto, Hdec.
  by rewrite bool_decide_eq_true_2.
Qed.

Lemma activations_session r port additionalPorts terminal timeout :
  activations (fst (probingSession r port additionalPorts terminal timeout)) = [].
Proof.
  rewrite probingSession_log. cbn [activations omap].
  induction (reported _) as [|x l IH]; [done|]. exact IH.
Qed.

Lemma activations_app (l1 l2 : list Event) :
  activations (l1 ++ l2) = activations l1 ++ activations l2.
Proof. apply omap_app. Qed.

Lemma activations_keepsWaiting r script port additionalPorts terminal timeout :
  keepsWaiting r additionalPorts terminal ->
  activations
    (openBrowserWhenReady (r :: script) port additionalPorts terminal timeout)
  = (port, additionalPorts, terminal, timeout)
    :: activations
         (openBrowserWhenReady script port additionalPorts terminal 30000).
Proof.
  intros Hr. rewrite keepsWaiting_round by done.
  change (activations (Activation ?p ?a ?t ?T :: ?l))
    with ((p, a, t, T) :: activations l).
  by rewrite activations_app, activations_session.
Qed.

Lemma activations_openBrowser setting hostPreview url :
  activations (openBrowser setting hostPreview url) = [].
Proof. unfold openBrowser. repeat case_match; done. Qed.

(** X19: whatever the script, a log holds the first activation followed
    by activations that differ from it in the timeout only, which is
    30000. *)
Lemma activations_shape (script : list Round) (port : Z)
    (additionalPorts : list Z) (terminal : option Terminal) :
  forall timeout : Z,
    exists n : nat,
      activations
        (openBrowserWhenReady script port additionalPorts terminal timeout)
      = (port, additionalPorts, terminal, timeout)
        :: replicate n (port, additionalPorts, terminal, 30000).
Proof.
  induction script as [|r script IH]; intros timeout; [by exists O|].
  rewrite openBrowserWhenReady_round.
  change (activations (Activation ?p ?a ?t ?T :: ?l))
    with ((p, a, t, T) :: activations l).
  destruct (String.eqb _ "none"); [by exists O|].
  rewrite activations_app, activations_session. cbn [app].
  destruct (_ || _); [by exists O|].
  destruct (somePortTimedOut r additionalPorts).
  - change (activations (ShowErrorMessage ?m ?i :: ?l)) with (activations l).
    case_bool_decide.
    + destruct (hasExited terminal (exitStatusAtDecision r)); [by exists O|].
      destruct (IH 30000) as [n Hn]. exists (S n). by rewrite Hn.
    + exists O. rewrite activations_app.
      by case_bool_decide; [destruct terminal|].
  - exists O. by rewrite activations_app, activations_openBrowser.
Qed.

(** C1: when the wait of an activation times out and the user picks
    "Keep waiting" while the terminal has not exited, the next thing
    that happens after the prompt is an activation with the same port,
    the same additional ports, the same terminal and a timeout of 30000,
    whatever the timeout was; and after any number of such rounds every
    further activation again has these arguments and the timeout
    30000. *)
Theorem keep_waiting_reinvokes_with_30000 (r : Round) (rounds script : list Round)
    (port : Z) (additionalPorts : list Z) (terminal : option Terminal)
    (timeout : Z) :
  keepsWaiting r additionalPorts terminal ->
  Forall (fun r' => keepsWaiting r' additionalPorts terminal) rounds ->
  openBrowserWhenReady (r :: script) port additionalPorts terminal timeout
  = Activation port additionalPorts terminal timeout
    :: fst (probingSession r port additionalPorts terminal timeout)
    ++ ShowErrorMessage (tookLongerMessage timeout) (promptItems terminal)
    :: openBrowserWhenReady script port additionalPorts terminal 30000
  /\ activations
       (openBrowserWhenReady (r :: rounds ++ script) port additionalPorts
          terminal timeout)
     = (port, additionalPorts, terminal, timeout)
       :: replicate (length rounds) (port, additionalPorts, terminal, 30000)
       ++ activations
            (openBrowserWhenReady script port additionalPorts terminal 30000)
  /\ head (activations
             (openBrowserWhenReady script port additionalPorts terminal 30000))
     = Some (port, additionalPorts, terminal, 30000).
Proof.
  intros Hr Hrounds. split; [by apply keepsWaiting_round|]. split.
  - rewrite activations_keepsWaiting by done. f_equal.
    clear r timeout Hr.
    induction Hrounds as [|r' rounds Hr' _ IH]; [done|].
    rewrite <- app_comm_cons, activations_keepsWaiting by done.
    cbn [length replicate app]. by f_equal.
  - by destruct script.
Qed.

(** Three rounds of a port that never opens, the user asking to keep
    waiting each time, started with a deadline of 200 ms. *)
Lemma keep_waiting_reinvokes_with_30000_witness :
  keepsWaiting sampleRound [8001] None
  /\ activations
       (openBrowserWhenReady
          (sampleRound :: [sampleRound; sampleRound] ++ []) 8000 [8001] None 200)
     = [(8000, [8001], None, 200);
        (8000, [8001], None, 30000);
        (8000, [8001], None, 30000);
        (8000, [8001], None, 30000)].
Proof.
  assert (Hk : keepsWaiting sampleRound [8001] None).
  { repeat split; try reflexivity. discriminate. }
  assert (Hks : Forall (fun r' => keepsWaiting r' [8001] None)
                  [sampleRound; sampleRound]).
  { repeat apply List.Forall_cons; try exact Hk. apply List.Forall_nil. }
  split; [exact Hk|].
  pose proof (keep_waiting_reinvokes_with_30000 sampleRound
                [sampleRound; sampleRound] [] 8000 [8001] None 200 Hk Hks)
    as (_ & Hacts & _).
  exact Hacts.
Defined.

(** The events of a session are progress events: the notification and
    its reports. *)
Lemma session_is_progress r port additionalPorts terminal timeout :
  Forall (fun e => isProgress e = true)
    (fst (probingSession r port additionalPorts terminal timeout)).
Proof.
  rewrite probingSession_log. apply List.Forall_cons; [done|].
  induction (reported _) as [|x l IH]; [apply List.Forall_nil|].
  apply List.Forall_cons; [done|exact IH].
Qed.

Lemma filter_progress (f : Event -> bool) (l : list Event) :
  (forall e, isProgress e = true -> f e = false) ->
  Forall (fun e => isProgress e = true) l ->
  List.filter f l = [].
Proof.
  intros Hf. induction 1 as [|e l He _ IH]; [done|].
  simpl. by rewrite (Hf e He).
Qed.

Lemma session_no_browser r port additionalPorts terminal timeout :
  List.filter isBrowserAction
    (fst (probingSession r port additionalPorts terminal timeout)) = [].
Proof.
  apply filter_progress; [|apply session_is_progress]. by intros [].
Qed.

Lemma session_no_prompt r port additionalPorts terminal timeout :
  List.filter isPrompt
    (fst (probingSession r port additionalPorts terminal timeout)) = [].
Proof.
  apply filter_progress; [|apply session_is_progress]. by intros [].
Qed.

Lemma session_no_warning r port additionalPorts terminal timeout :
  List.filter isWarning
    (fst (probingSession r port additionalPorts terminal timeout)) = [].
Proof.
  apply filter_progress; [|apply session_is_progress]. by intros [].
Qed.

(** ** The terminal closes during the wait *)

(** C2: when the close of the terminal settles the race, or the
    terminal has exited when the result of the race is inspected, the
    activation logs the progress notification of the wait and its
    reports, then one warning, and returns.  There is no browser or
    preview action and no prompt: the wait's own progress events apart,
    the warning is the only observable effect.  (Reports that retry
    loops still running make after [withProgress] has resolved are not
    part of a round.) *)
Theorem terminal_closed_only_warns (r : Round) (script : list Round) (port : Z)
    (additionalPorts : list Z) (terminal : option Terminal) (timeout : Z) :
  configShinyPreviewType (previewTypeSetting r) <> "none" ->
  terminalClosedFirst r terminal = true
  \/ hasExited terminal (exitStatusAfterWait r) = true ->
  let log :=
    openBrowserWhenReady (r :: script) port additionalPorts terminal timeout in
  log = Activation port additionalPorts terminal timeout
        :: fst (probingSession r port additionalPorts terminal timeout)
        ++ [closedWarning; Return]
  /\ List.filter isBrowserAction log = []
  /\ List.filter isPrompt log = []
  /\ List.filter isWarning log = [closedWarning]
  /\ Forall (fun e => observable e = true ->
                      isProgress e = true \/ e = closedWarning) log
  /\ is_Some terminal.
Proof.
  intros Hpt Hclosed log.
  assert (Hlog : log = Activation port additionalPorts terminal timeout
                   :: fst (probingSession r port additionalPorts terminal timeout)
                   ++ [closedWarning; Return]).
  { unfold log. rewrite openBrowserWhenReady_round, (preview_not_none r Hpt).
    destruct Hclosed as [-> | ->]; [done|]. by rewrite orb_true_r. }
  split; [exact Hlog|]. rewrite Hlog.
  cbn [List.filter isBrowserAction isPrompt isWarning].
  rewrite !List.filter_app, session_no_browser, session_no_prompt,
    session_no_warning.
  do 3 (split; [done|]). split.
  - apply List.Forall_cons; [done|]. apply Forall_app. split.
    + eapply Forall_impl; [apply session_is_progress|]. by left.
    + apply List.Forall_cons; [by right|].
      apply List.Forall_cons; [done|apply List.Forall_nil].
  - destruct terminal; [done|]. by destruct Hclosed.
Qed.

Lemma terminal_closed_only_warns_witness :
  configShinyPreviewType (previewTypeSetting closedRound) <> "none"
  /\ terminalClosedFirst closedRound (Some shinyTerminal) = true
  /\ openBrowserWhenReady [closedRound] 8000 [] (Some shinyTerminal) 1000
     = [Activation 8000 [] (Some shinyTerminal) 1000;
        WithProgress "Waiting for Shiny app to start...";
        ProgressReport (incrementOf 1000 0);
        closedWarning; Return].
Proof.
  assert (Hpt : configShinyPreviewType (previewTypeSetting closedRound) <> "none")
    by discriminate.
  assert (Hc : terminalClosedFirst closedRound (Some shinyTerminal) = true)
    by reflexivity.
  split; [exact Hpt|]. split; [exact Hc|].
  exact (proj1 (terminal_closed_only_warns closedRound [] 8000 []
                  (Some shinyTerminal) 1000 Hpt (or_introl Hc))).
Defined.

(** ** The terminal has exited when the user answers *)

(** C6: when the wait times out, the user picks "Keep waiting" and the
    terminal has exited by then, the activation shows the error message
    that asks to run the app again and returns: the log ends there, it
    holds no further activation and no browser action. *)
Theorem keep_waiting_after_exit_stops (r : Round) (script : list Round)
    (port : Z) (additionalPorts : list Z) (terminal : option Terminal)
    (timeout : Z) :
  timesOut r additionalPorts terminal ->
  action r = Some "Keep waiting" ->
  hasExited terminal (exitStatusAtDecision r) = true ->
  let log :=
    openBrowserWhenReady (r :: script) port additionalPorts terminal timeout in
  log = Activation port additionalPorts terminal timeout
        :: fst (probingSession r port additionalPorts terminal timeout)
        ++ [ShowErrorMessage (tookLongerMessage timeout) (promptItems terminal);
            terminalClosedMessage; Return]
  /\ activations log = [(port, additionalPorts, terminal, timeout)]
  /\ List.filter isBrowserAction log = [].
Proof.
  intros (Hpt & Hrace & Hexit & Hto) Hact Hdec log.
  assert (Hlog : log = Activation port additionalPorts terminal timeout
                   :: fst (probingSession r port additionalPorts terminal timeout)
                   ++ [ShowErrorMessage (tookLongerMessage timeout)
                         (promptItems terminal);
                       terminalClosedMessage; Return]).
  { unfold log. rewrite openBrowserWhenReady_round.
    rewrite (preview_not_none r Hpt), Hrace, Hexit, Hto, Hdec.
    by rewrite bool_decide_eq_true_2. }
  split; [exact Hlog|]. rewrite Hlog. split.
  - change (activations (Activation ?p ?a ?t ?T :: ?l))
      with ((p, a, t, T) :: activations l).
    by rewrite activations_app, activations_session.
  - cbn [List.filter isBrowserAction].
    by rewrite List.filter_app, session_no_browser.
Qed.

Lemma keep_waiting_after_exit_stops_witness :
  timesOut exitedAtDecisionRound [] (Some shinyTerminal)
  /\ activations
       (openBrowserWhenReady [exitedAtDecisionRound; sampleRound] 8000 []
          (Some shinyTerminal) 200)
     = [(8000, [], Some shinyTerminal, 200)].
Proof.
  assert (Ht : timesOut exitedAtDecisionRound [] (Some shinyTerminal)).
  { repeat split; try reflexivity. discriminate. }
  split; [exact Ht|].
  exact (proj1 (proj2 (keep_waiting_after_exit_stops exitedAtDecisionRound
                         [sampleRound] 8000 [] (Some shinyTerminal) 200
                         Ht eq_refl eq_refl))).
Defined.

(** ** ProposedFilePreviewProvider *)

Import FilePreview.

(** On paths that no object inherits, and as long as no file named
    "__proto__" was added, the provider answers with a string: the empty
    one under "/empty/" and for a path with no file, the content of the
    file otherwise. *)
Lemma provideTextDocumentContent_plain (fs : Files) (uri : Uri) :
  proto fs = None ->
  path uri ∉ objectPrototypeKeys ->
  provideTextDocumentContent fs uri
  = VString (if String.prefix "/empty/" (path uri) then ""
             else match own fs !! path uri with
                  | Some f => content f
                  | None => ""
                  end).
Proof.
  intros Hproto Hkey. unfold provideTextDocumentContent, getProperty.
  destruct (String.prefix "/empty/" (path uri)); [done|].
  destruct (own fs !! path uri) as [f|]; [done|].
  rewrite Hproto. cbn [mbind option_bind].
  destruct (String.eqb_spec (path uri) "__proto__") as [Heq|_].
  - exfalso. apply Hkey. rewrite Heq. unfold objectPrototypeKeys.
    repeat first [apply list_elem_of_here | apply list_elem_of_further].
  - by rewrite bool_decide_eq_false_2.
Qed.

(** C10, the failing input: no file was added, and the path is
    "constructor".  The lookup finds the function every object inherits
    under that name; it is truthy and has no [content], so the provider
    returns [undefined] rather than the empty string. *)
Lemma provideTextDocumentContent_inherited_key :
  provideTextDocumentContent emptyFiles {| path := "constructor" |} = VUndefined.
Proof. reflexivity. Qed.

(** The same happens for every name on [Object.prototype]. *)
Lemma provideTextDocumentContent_every_prototype_name :
  Forall (fun key =>
            provideTextDocumentContent emptyFiles {| path := key |} = VUndefined)
    objectPrototypeKeys.
Proof. repeat (apply List.Forall_cons; [reflexivity|]). apply List.Forall_nil. Qed.

(** A file added under the name "__proto__" becomes the prototype of
    the table instead of an entry: its own field names then answer as
    paths, with a string that has no [content]. *)
Lemma provideTextDocumentContent_proto_file :
  let file := {| name := "__proto__"; content := "x <- 1"; type := Some "text" |} in
  forall fs, addFile (fun dir f => dir +:+ "/" +:+ f) emptyFiles file None = Some fs ->
    provideTextDocumentContent fs {| path := "name" |} = VUndefined
    /\ provideTextDocumentContent fs {| path := "__proto__" |} = VString "x <- 1".
Proof. intros file fs [= <-]. split; reflexivity. Qed.

(** A file that was added is served, an unknown path and a path under
    "/empty/" give the empty string. *)
Lemma provideTextDocumentContent_served :
  let file := {| name := "app.R"; content := "library(shiny)"; type := None |} in
  forall fs, addFile (fun dir f => dir +:+ "/" +:+ f) emptyFiles file (Some "proposed")
             = Some fs ->
    provideTextDocumentContent fs {| path := "proposed/app.R" |}
    = VString "library(shiny)"
    /\ provideTextDocumentContent fs {| path := "app.R" |} = VString ""
    /\ provideTextDocumentContent fs {| path := "/empty/proposed/app.R" |}
       = VString "".
Proof. intros file fs [= <-]. repeat split; reflexivity. Qed.

(** * Part III: further properties of the code *)

(** ** isPortOpen: the first event decides *)

Lemma dispatch_settles (st : Probe) (ev : SocketEvent) :
  settled (promise (dispatch st ev)) = true.
Proof. destruct st as [[| |] c], ev; reflexivity. Qed.

(** X1: the outcome of [isPortOpen] is fixed before the socket is heard
    when [setTimeout] or [connect] throws (a negative timeout, a number
    that is not a port): the promise is rejected at once.  Otherwise it
    is fixed by the first event the socket delivers, whatever follows:
    [true] when it is the connect callback, the rejection of the
    listener concerned otherwise, and pending while there is no event.
    The promise is never fulfilled with [false]. *)
Theorem isPortOpen_outcome host port timeout (events : list SocketEvent) :
  promise (isPortOpen host port timeout events)
  = if timeout <? 0 then Rejected "ERR_OUT_OF_RANGE"
    else if negb (valid_port port) then Rejected "ERR_SOCKET_BAD_PORT"
    else match events with
         | [] => Pending
         | EvConnect :: _ => Fulfilled true
         | EvTimeout :: _ => Rejected "Timed out"
         | EvError err :: _ => Rejected err
         | EvClose :: _ => Rejected "Connection closed"
         end.
Proof.
  unfold isPortOpen.
  destruct (timeout <? 0); [done|]. destruct (negb (valid_port port)); [done|].
  destruct events as [|ev rest]; [reflexivity|].
  cbn [fold_left].
  rewrite fold_dispatch_keeps_settled by apply dispatch_settles.
  by destruct ev.
Qed.

(** ** suggestPort: exits of the loop *)

(** X2: whatever [suggestPort] returns, a port or an exception, the
    listeners of all its iterations are closed: this process holds the
    ports it held before. *)
Theorem suggestPort_leaves_no_listener (env : Env) (fuel : nat) (w w' : World)
    (p : Promise Z string) :
  suggestPort env fuel w = Some (p, w') ->
  held w' = held w.
Proof.
  revert w. induction fuel as [|fuel IH]; intros w Hs; [done|].
  rewrite suggestPort_step in Hs.
  destruct (server_listen env 0 createServer w) as [[[ev srv] w1]|] eqn:Hl.
  - pose proof (closeServer_after_listen _ _ _ _ _ _ Hl) as (Hh & _ & _).
    destruct ev.
    + destruct (negb _).
      * injection Hs as _ <-. exact Hh.
      * apply IH in Hs. by rewrite Hs.
    + injection Hs as _ <-. exact Hh.
  - by injection Hs as _ <-.
Qed.

Lemma suggestPort_leaves_no_listener_witness :
  suggestPort quietEnv 2 freshWorld
  = Some (Fulfilled 50000, {| now := 6; held := ∅; listens := 2 |})
  /\ held {| now := 6; held := ∅; listens := 2 |} = held freshWorld.
Proof.
  assert (Hrun : suggestPort quietEnv 2 freshWorld
                 = Some (Fulfilled 50000,
                         {| now := 6; held := ∅; listens := 2 |})).
  { vm_compute. reflexivity. }
  split; [exact Hrun|].
  exact (suggestPort_leaves_no_listener quietEnv 2 freshWorld _ _ Hrun).
Defined.

(** X3: an "error" from [listen] is not retried: [suggestPort] throws in
    the iteration in which it happens, however many iterations it was
    given.  Only a port on the blocklist makes the loop go round. *)
Theorem suggestPort_listen_error_throws (env : Env) (fuel : nat) (w w1 : World)
    (srv : Server) :
  server_listen env 0 createServer w = Some (EvServerError, srv, w1) ->
  exists e w', suggestPort env (S fuel) w = Some (Rejected e, w')
               /\ listens w' = S (listens w).
Proof.
  intros Hl. rewrite suggestPort_step, Hl.
  exists "listen failed", (snd (closeServer srv w1)). split; [done|].
  pose proof (closeServer_after_listen _ _ _ _ _ _ Hl) as (_ & _ & Hls).
  pose proof (server_listen_zero_spec _ _ _ _ _ Hl) as (Hl1 & _).
  by rewrite Hls.
Qed.

Lemma suggestPort_listen_error_throws_witness :
  server_listen exhaustedEnv 0 createServer freshWorld
  = Some (EvServerError, createServer,
          {| now := 0 + 0; held := ∅; listens := 1 |})
  /\ exists e w', suggestPort exhaustedEnv 5 freshWorld = Some (Rejected e, w')
                  /\ listens w' = S (listens freshWorld).
Proof.
  assert (Hl : server_listen exhaustedEnv 0 createServer freshWorld
               = Some (EvServerError, createServer,
                       {| now := 0 + 0; held := ∅; listens := 1 |}))
    by reflexivity.
  split; [exact Hl|].
  exact (suggestPort_listen_error_throws exhaustedEnv 4 freshWorld _ _ Hl).
Defined.

Lemma suggestPort_returns_witness :
  exists w', suggestPort quietEnv 2 freshWorld = Some (Fulfilled 50000, w').
Proof.
  apply (suggestPort_returns quietEnv 1 50000).
  - reflexivity.
  - rewrite <- includes_spec. vm_compute. discriminate.
  - reflexivity.
  - intros j Hj. exists 6000. replace j with O by lia.
    split; [reflexivity|]. apply includes_spec. vm_compute. reflexivity.
  - reflexivity.
  - lia.
Defined.

(** ** openBrowser: every preview type *)

(** X5: [openBrowser] makes at most one call, and the call carries the
    URL it was given; it makes none exactly when the preview type is
    "none", or "external" with the URL "about:blank". *)
Theorem openBrowser_one_call (setting : option string) (hostPreview : bool)
    (url : string) :
  (length (openBrowser setting hostPreview url) <= 1)%nat
  /\ (forall e, e ∈ openBrowser setting hostPreview url ->
        e = OpenExternal url \/ e = HostPreview url
        \/ e = ExecuteCommand "simpleBrowser.api.open" url)
  /\ (openBrowser setting hostPreview url = [] <->
      configShinyPreviewType setting = "none"
      \/ (configShinyPreviewType setting = "external" /\ url = "about:blank")).
Proof.
  unfold openBrowser.
  destruct (String.eqb_spec (configShinyPreviewType setting) "none") as [Hn|Hn].
  { split; [simpl; lia|]. split; [by intros e He; inversion He|].
    split; [by left|done]. }
  destruct (String.eqb_spec (configShinyPreviewType setting) "external")
    as [Hx|Hx].
  { destruct (String.eqb_spec url "about:blank") as [Hb|Hb].
    - split; [simpl; lia|]. split; [by intros e He; inversion He|].
      split; [by right|done].
    - split; [simpl; lia|].
      split; [intros e He; apply list_elem_of_singleton in He; auto|].
      split; [done|]. intros [?|[_ ?]]; done. }
  destruct (String.eqb _ "internal" && hostPreview).
  - split; [simpl; lia|].
    split; [intros e He; apply list_elem_of_singleton in He; auto|].
    split; [done|]. intros [?|[? _]]; done.
  - split; [simpl; lia|].
    split; [intros e He; apply list_elem_of_singleton in He; auto|].
    split; [done|]. intros [?|[? _]]; done.
Qed.

(** X6: a preview type other than "none", "external" and "internal"
    (and other than the empty string, which counts as "internal") opens
    the simple browser of the editor, whether or not the host offers a
    preview hook; so does "internal" when there is no hook. *)
Theorem openBrowser_fallback (s : string) (hostPreview : bool) (url : string) :
  s <> "" -> s <> "none" -> s <> "external" ->
  s <> "internal" \/ hostPreview = false ->
  openBrowser (Some s) hostPreview url
  = [ExecuteCommand "simpleBrowser.api.open" url].
Proof.
  intros He Hn Hx Hi. unfold openBrowser, configShinyPreviewType.
  rewrite (proj2 (String.eqb_neq s "") He).
  rewrite (proj2 (String.eqb_neq s "none") Hn).
  rewrite (proj2 (String.eqb_neq s "external") Hx).
  destruct Hi as [Hi| ->].
  - by rewrite (proj2 (String.eqb_neq s "internal") Hi).
  - by rewrite andb_false_r.
Qed.

Lemma openBrowser_fallback_witness :
  openBrowser (Some "browser") true "http://localhost:8000"
  = [ExecuteCommand "simpleBrowser.api.open" "http://localhost:8000"].
Proof.
  apply openBrowser_fallback; try discriminate. left. discriminate.
Defined.

(** ** openBrowserWhenReady: the other ways out *)

Lemma openBrowser_cases setting hostPreview url :
  openBrowser setting hostPreview url = []
  \/ openBrowser setting hostPreview url = [OpenExternal url]
  \/ openBrowser setting hostPreview url = [HostPreview url]
  \/ openBrowser setting hostPreview url
     = [ExecuteCommand "simpleBrowser.api.open" url].
Proof. unfold openBrowser. repeat case_match; auto. Qed.

(** X7: with the preview type "none" the activation returns at once: no
    progress notification, no wait, no prompt, no warning, whatever the
    ports, the terminal and the rest of the script. *)
Theorem preview_none_skips_wait (r : Round) (script : list Round) (port : Z)
    (additionalPorts : list Z) (terminal : option Terminal) (timeout : Z) :
  configShinyPreviewType (previewTypeSetting r) = "none" ->
  openBrowserWhenReady (r :: script) port additionalPorts terminal timeout
  = [Activation port additionalPorts terminal timeout; Return].
Proof. intros Hn. by rewrite openBrowserWhenReady_round, Hn. Qed.

Lemma preview_none_skips_wait_witness :
  openBrowserWhenReady [noneRound; sampleRound] 8000 [8001]
    (Some shinyTerminal) 10000
  = [Activation 8000 [8001] (Some shinyTerminal) 10000; Return].
Proof. by apply preview_none_skips_wait. Defined.

(** X8: when every port is found open, the terminal did not close
    first and has not exited, the activation hands the URL of the
    primary port, and of no other port, to [openBrowser], with the
    preview type as it is set at that moment, and returns; there is no
    prompt, no warning and no further activation. *)
Theorem all_ports_open_launches_preview (r : Round) (script : list Round)
    (port : Z) (additionalPorts : list Z) (terminal : option Terminal)
    (timeout : Z) :
  configShinyPreviewType (previewTypeSetting r) <> "none" ->
  terminalClosedFirst r terminal = false ->
  hasExited terminal (exitStatusAfterWait r) = false ->
  somePortTimedOut r additionalPorts = false ->
  let log :=
    openBrowserWhenReady (r :: script) port additionalPorts terminal timeout in
  log = Activation port additionalPorts terminal timeout
        :: fst (probingSession r port additionalPorts terminal timeout)
        ++ openBrowser (previewTypeAtOpen r) (hostPreview r)
             (remoteSafeUrl r port)
        ++ [Return]
  /\ List.filter isPrompt log = []
  /\ List.filter isWarning log = []
  /\ activations log = [(port, additionalPorts, terminal, timeout)].
Proof.
  intros Hpt Hrace Hexit Hto log.
  assert (Hlog : log = Activation port additionalPorts terminal timeout
                   :: fst (probingSession r port additionalPorts terminal timeout)
                   ++ openBrowser (previewTypeAtOpen r) (hostPreview r)
                        (remoteSafeUrl r port)
                   ++ [Return]).
  { unfold log. rewrite openBrowserWhenReady_round.
    by rewrite (preview_not_none r Hpt), Hrace, Hexit, Hto. }
  split; [exact Hlog|]. rewrite Hlog.
  change (activations (Activation ?p ?a ?t ?T :: ?l))
    with ((p, a, t, T) :: activations l).
  cbn [List.filter isPrompt isWarning].
  rewrite !List.filter_app, !activations_app, session_no_prompt,
    session_no_warning, activations_session, activations_openBrowser.
  by destruct (openBrowser_cases (previewTypeAtOpen r) (hostPreview r)
                 (remoteSafeUrl r port)) as [-> | [-> | [-> | ->]]].
Qed.

Lemma all_ports_open_launches_preview_witness :
  configShinyPreviewType (previewTypeSetting readyRound) <> "none"
  /\ somePortTimedOut readyRound [8001] = false
  /\ openBrowserWhenReady [readyRound] 8000 [8001] (Some shinyTerminal) 10000
     = [Activation 8000 [8001] (Some shinyTerminal) 10000;
        WithProgress "Waiting for Shiny app to start...";
        ProgressReport (incrementOf 10000 0);
        ProgressReport (incrementOf 10000 2);
        HostPreview "http://localhost:8000";
        Return].
Proof.
  assert (Hpt : configShinyPreviewType (previewTypeSetting readyRound) <> "none")
    by discriminate.
  split; [exact Hpt|]. split; [reflexivity|].
  exact (proj1 (all_ports_open_launches_preview readyRound [] 8000 [8001]
                  (Some shinyTerminal) 10000 Hpt eq_refl eq_refl eq_refl)).
Defined.

(** X9: when the wait times out and the answer to the prompt is not
    "Keep waiting" (another item, or the prompt dismissed), the
    activation logs the failure warning and returns: no further
    activation, no browser action.  The terminal is shown exactly when
    the answer is "Show Shiny process" and a terminal was given. *)
Theorem timeout_declined_gives_up (r : Round) (script : list Round) (port : Z)
    (additionalPorts : list Z) (terminal : option Terminal) (timeout : Z) :
  timesOut r additionalPorts terminal ->
  action r <> Some "Keep waiting" ->
  let log :=
    openBrowserWhenReady (r :: script) port additionalPorts terminal timeout in
  let shown :=
    match terminal with
    | Some t =>
        if bool_decide (action r = Some "Show Shiny process")
        then [TerminalShow t] else []
    | None => []
    end in
  log = Activation port additionalPorts terminal timeout
        :: fst (probingSession r port additionalPorts terminal timeout)
        ++ ShowErrorMessage (tookLongerMessage timeout) (promptItems terminal)
        :: shown
        ++ [failedWarning; Return]
  /\ activations log = [(port, additionalPorts, terminal, timeout)]
  /\ List.filter isBrowserAction log = [].
Proof.
  intros (Hpt & Hrace & Hexit & Hto) Hact log shown.
  assert (Hlog : log = Activation port additionalPorts terminal timeout
                   :: fst (probingSession r port additionalPorts terminal timeout)
                   ++ ShowErrorMessage (tookLongerMessage timeout)
                        (promptItems terminal)
                   :: shown ++ [failedWarning; Return]).
  { unfold log, shown. rewrite openBrowserWhenReady_round.
    rewrite (preview_not_none r Hpt), Hrace, Hexit, Hto.
    rewrite bool_decide_eq_false_2 by done.
    by destruct terminal; case_bool_decide. }
  split; [exact Hlog|]. rewrite Hlog.
  change (activations (Activation ?p ?a ?t ?T :: ?l))
    with ((p, a, t, T) :: activations l).
  cbn [List.filter isBrowserAction].
  rewrite List.filter_app, activations_app, session_no_browser,
    activations_session.
  unfold shown. by destruct terminal; try case_bool_decide.
Qed.

Lemma timeout_declined_gives_up_witness :
  timesOut showProcessRound [] (Some shinyTerminal)
  /\ action showProcessRound <> Some "Keep waiting"
  /\ openBrowserWhenReady [showProcessRound; sampleRound] 8000 []
       (Some shinyTerminal) 10000
     = [Activation 8000 [] (Some shinyTerminal) 10000;
        WithProgress "Waiting for Shiny app to start...";
        ProgressReport (incrementOf 10000 0);
        ShowErrorMessage
          "Shiny app took longer than 10s to start so we have not opened the preview."
          ["Show Shiny process"; "Keep waiting"];
        TerminalShow shinyTerminal;
        failedWarning; Return].
Proof.
  assert (Ht : timesOut showProcessRound [] (Some shinyTerminal)).
  { repeat split; try reflexivity. discriminate. }
  assert (Ha : action showProcessRound <> Some "Keep waiting") by discriminate.
  split; [exact Ht|]. split; [exact Ha|].
  exact (proj1 (timeout_declined_gives_up showProcessRound [sampleRound] 8000 []
                  (Some shinyTerminal) 10000 Ht Ha)).
Defined.

(** X10: whatever the script, the ports, the terminal and the timeout,
    a run of [openBrowserWhenReady] opens a browser or preview at most
    once, however many times the user asked to keep waiting. *)
Theorem browser_opened_at_most_once (script : list Round) (port : Z)
    (additionalPorts : list Z) (terminal : option Terminal) :
  forall timeout : Z,
    (length (List.filter isBrowserAction
               (openBrowserWhenReady script port additionalPorts terminal
                  timeout)) <= 1)%nat.
Proof.
  induction script as [|r script IH]; intros timeout; [simpl; lia|].
  rewrite openBrowserWhenReady_round. cbn [List.filter isBrowserAction].
  destruct (String.eqb _ "none"); [simpl; lia|].
  rewrite List.filter_app, session_no_browser. cbn [app].
  destruct (_ || _); [simpl; lia|].
  destruct (somePortTimedOut r additionalPorts).
  - cbn [List.filter isBrowserAction]. case_bool_decide.
    + destruct (hasExited terminal (exitStatusAtDecision r)); [simpl; lia|].
      apply IH.
    + rewrite List.filter_app.
      case_bool_decide; [destruct terminal|]; simpl; lia.
  - rewrite List.filter_app.
    destruct (openBrowser_cases (previewTypeAtOpen r) (hostPreview r)
                (remoteSafeUrl r port)) as [-> | [-> | [-> | ->]]];
      simpl; lia.
Qed.

(** X11: the only terminal a run ever shows is the one it was given, and
    a run that was given no terminal never logs the terminal-closed
    warning nor shows the terminal-closed error message. *)
Theorem terminal_events_need_the_terminal (script : list Round) (port : Z)
    (additionalPorts : list Z) (terminal : option Terminal) :
  forall timeout : Z,
    Forall (fun e =>
              (forall t, e = TerminalShow t -> terminal = Some t)
              /\ (e = closedWarning \/ e = terminalClosedMessage ->
                  is_Some terminal))
      (openBrowserWhenReady script port additionalPorts terminal timeout).
Proof.
  set (P := fun e : Event =>
              (forall t, e = TerminalShow t -> terminal = Some t)
              /\ (e = closedWarning \/ e = terminalClosedMessage ->
                  is_Some terminal)).
  assert (Hother : forall e,
            isProgress e = true \/ isBrowserAction e = true \/ e = Return
            \/ e = failedWarning \/ (exists m i i', e = ShowErrorMessage m (i :: i'))
            \/ (exists p a t T, e = Activation p a t T) -> P e).
  { intros e He. split.
    - intros t ->.
      destruct He as [?|[?|[?|[?|[(?&?&?&?)|(?&?&?&?&?)]]]]]; done.
    - intros [-> | ->];
      destruct He as [?|[?|[?|[?|[(?&?&?&?)|(?&?&?&?&?)]]]]]; done. }
  induction script as [|r script IH]; intros timeout.
  { apply List.Forall_cons; [|apply List.Forall_nil].
    apply Hother. repeat right. eauto. }
  rewrite openBrowserWhenReady_round.
  apply List.Forall_cons; [apply Hother; repeat right; eauto|].
  destruct (String.eqb _ "none").
  { apply List.Forall_cons; [apply Hother; auto|apply List.Forall_nil]. }
  apply Forall_app. split.
  { eapply Forall_impl; [apply session_is_progress|].
    intros e He. apply Hother. by left. }
  destruct (terminalClosedFirst r terminal || hasExited terminal _) eqn:Hclosed.
  { assert (is_Some terminal) by (by destruct terminal).
    apply List.Forall_cons; [done|].
    apply List.Forall_cons; [apply Hother; auto|apply List.Forall_nil]. }
  destruct (somePortTimedOut r additionalPorts).
  - apply List.Forall_cons.
    { apply Hother. do 4 right. left. unfold promptItems. eauto. }
    case_bool_decide.
    + destruct (hasExited terminal (exitStatusAtDecision r)) eqn:Hdec; [|apply IH].
      assert (is_Some terminal) by (by destruct terminal).
      apply List.Forall_cons; [done|].
      apply List.Forall_cons; [apply Hother; auto|apply List.Forall_nil].
    + apply Forall_app. split.
      * case_bool_decide; [|apply List.Forall_nil].
        destruct terminal as [t|]; [|apply List.Forall_nil].
        apply List.Forall_cons; [|apply List.Forall_nil].
        split; [by intros t' [= ->]|done].
      * apply List.Forall_cons; [apply Hother; auto 6|].
        apply List.Forall_cons; [apply Hother; auto|apply List.Forall_nil].
  - apply Forall_app. split.
    + destruct (openBrowser_cases (previewTypeAtOpen r) (hostPreview r)
                  (remoteSafeUrl r port)) as [-> | [-> | [-> | ->]]];
        repeat (apply List.Forall_cons; [apply Hother; auto|]);
        apply List.Forall_nil.
    + apply List.Forall_cons; [apply Hother; auto|apply List.Forall_nil].
Qed.

(** ** Which terminal cancels the wait *)

Lemma warnings_of_round (r : Round) (port : Z) (additionalPorts : list Z)
    (terminal : option Terminal) (timeout : Z) :
  List.filter isWarning
    (openBrowserWhenReady [r] port additionalPorts terminal timeout)
  = if String.eqb (configShinyPreviewType (previewTypeSetting r)) "none"
    then []
    else if terminalClosedFirst r terminal
            || hasExited terminal (exitStatusAfterWait r)
    then [closedWarning]
    else if somePortTimedOut r additionalPorts
            && negb (bool_decide (action r = Some "Keep waiting"))
    then [failedWarning]
    else [].
Proof.
  rewrite openBrowserWhenReady_round. cbn [List.filter isWarning].
  destruct (String.eqb _ "none"); [done|].
  rewrite List.filter_app, session_no_warning. cbn [app].
  destruct (_ || _); [done|].
  destruct (somePortTimedOut r additionalPorts); cbn [andb].
  - cbn [List.filter isWarning]. case_bool_decide; cbn [negb].
    + by destruct (hasExited terminal (exitStatusAtDecision r)).
    + rewrite List.filter_app. by case_bool_decide; [destruct terminal|].
  - rewrite List.filter_app.
    by destruct (openBrowser_cases (previewTypeAtOpen r) (hostPreview r)
                   (remoteSafeUrl r port)) as [-> | [-> | [-> | ->]]].
Qed.

(** X12: an activation logs the terminal-closed warning exactly when it
    waits (the preview type is not "none") and the terminal it was
    given, that very terminal, was reported closed before the ports
    settled or has an exit status when the result is inspected.  The
    close of any other terminal does not cancel the wait. *)
Theorem closed_warning_only_for_own_terminal (r : Round) (port : Z)
    (additionalPorts : list Z) (terminal : option Terminal) (timeout : Z) :
  closedWarning
    ∈ openBrowserWhenReady [r] port additionalPorts terminal timeout
  <-> configShinyPreviewType (previewTypeSetting r) <> "none"
      /\ exists t, terminal = Some t
           /\ (t ∈ closedTerminals r \/ is_Some (exitStatusAfterWait r)).
Proof.
  assert (Hin : closedWarning
                  ∈ openBrowserWhenReady [r] port additionalPorts terminal timeout
                <-> closedWarning
                      ∈ List.filter isWarning
                          (openBrowserWhenReady [r] port additionalPorts
                             terminal timeout)).
  { rewrite !list_elem_of_In, filter_In. split; [by intros ?|by intros [? _]]. }
  rewrite Hin, warnings_of_round.
  destruct (String.eqb_spec (configShinyPreviewType (previewTypeSetting r)) "none")
    as [Hn|Hn].
  { split; [by intros ?%elem_of_nil|by intros [? _]]. }
  assert (Hcond : terminalClosedFirst r terminal
                    || hasExited terminal (exitStatusAfterWait r) = true
                  <-> exists t, terminal = Some t
                        /\ (t ∈ closedTerminals r
                            \/ is_Some (exitStatusAfterWait r))).
  { destruct terminal as [t|]; simpl.
    - rewrite orb_true_iff, !bool_decide_eq_true. split.
      + intros H. exists t. done.
      + by intros (t' & [= <-] & H).
    - split; [done|]. by intros (t' & ? & _). }
  destruct (_ || _).
  - split; [|intros _; apply list_elem_of_here].
    intros _. split; [done|]. by apply Hcond.
  - split.
    + intros Hw. exfalso.
      destruct (_ && _); [|by apply elem_of_nil in Hw].
      apply list_elem_of_singleton in Hw. discriminate Hw.
    + intros [_ Ht]. apply Hcond in Ht. discriminate Ht.
Qed.

(** ** ProposedFilePreviewProvider: adding files and reading them back *)

Lemma provide_own (fs : Files) (p : string) (f : FileContent) :
  own fs !! p = Some f ->
  String.prefix "/empty/" p = false ->
  provideTextDocumentContent fs {| path := p |} = VString (content f).
Proof.
  intros Hown Hempty. unfold provideTextDocumentContent, getProperty.
  cbn [path]. by rewrite Hempty, Hown.
Qed.

Lemma own_setProperty_ne (fs : Files) (k p : string) (f : FileContent) :
  k <> p -> own (setProperty fs k f) !! p = own fs !! p.
Proof.
  intros Hne. unfold setProperty.
  destruct (String.eqb k "__proto__"); [done|].
  cbn [own]. by rewrite lookup_insert_ne.
Qed.

Lemma own_setProperty_eq (fs : Files) (k : string) (f : FileContent) :
  k <> "__proto__" -> own (setProperty fs k f) !! k = Some f.
Proof.
  intros Hne. unfold setProperty.
  rewrite (proj2 (String.eqb_neq k "__proto__") Hne).
  cbn [own]. by rewrite lookup_insert_eq.
Qed.

(** What [addFile] does when it does not throw: the file is not binary,
    and a copy with the same content is assigned under its stored
    name. *)
Lemma addFile_spec join (fs fs' : Files) (file : FileContent) prefixDir :
  addFile join fs file prefixDir = Some fs' ->
  type file <> Some "binary"
  /\ exists fileCopy,
       content fileCopy = content file
       /\ fs' = setProperty fs (storedName join file prefixDir) fileCopy.
Proof.
  unfold addFile, storedName. case_bool_decide as Hbin; [done|].
  intros [= <-]. split; [done|].
  destruct prefixDir as [dir|]; [destruct (String.eqb dir "")|];
    (eexists; split; [|reflexivity]; reflexivity).
Qed.

Lemma addFile_binary join (fs : Files) (file : FileContent) prefixDir :
  type file = Some "binary" -> addFile join fs file prefixDir = None.
Proof. intros Hbin. unfold addFile. by rewrite bool_decide_eq_true_2. Qed.

Lemma addFile_text join (fs : Files) (file : FileContent) prefixDir :
  type file <> Some "binary" ->
  exists fs', addFile join fs file prefixDir = Some fs'.
Proof. intros Hbin. unfold addFile. rewrite bool_decide_eq_false_2; eauto. Qed.

(** X15: a file that [addFile] accepted is served back: the provider
    answers the path the file is stored under (its name, joined to the
    prefix directory when there is one) with the content of the file,
    provided the path is not under "/empty/" and is not "__proto__".
    This holds for names an object inherits too, such as "constructor":
    the stored entry hides the inherited one. *)
Theorem addFile_then_provide (join : string -> string -> string)
    (fs fs' : Files) (file : FileContent) (prefixDir : option string) :
  addFile join fs file prefixDir = Some fs' ->
  servablePath (storedName join file prefixDir) ->
  provideTextDocumentContent fs' {| path := storedName join file prefixDir |}
  = VString (content file).
Proof.
  intros Hadd [Hempty Hproto].
  apply addFile_spec in Hadd as (_ & fileCopy & Hcontent & ->).
  rewrite <- Hcontent. apply provide_own; [|done].
  by apply own_setProperty_eq.
Qed.

Lemma addFile_then_provide_witness :
  addFile slashJoin emptyFiles constructorFile None
  = Some (setProperty emptyFiles "constructor" constructorFile)
  /\ servablePath (storedName slashJoin constructorFile None)
  /\ provideTextDocumentContent
       (setProperty emptyFiles "constructor" constructorFile)
       {| path := "constructor" |}
     = VString "setClass()".
Proof.
  assert (Hadd : addFile slashJoin emptyFiles constructorFile None
                 = Some (setProperty emptyFiles "constructor" constructorFile))
    by reflexivity.
  assert (Hpath : servablePath (storedName slashJoin constructorFile None))
    by (split; [reflexivity|discriminate]).
  split; [exact Hadd|]. split; [exact Hpath|].
  exact (addFile_then_provide slashJoin emptyFiles _ constructorFile None
           Hadd Hpath).
Defined.

(** X16: adding a file changes the answer for its own path only: every
    other path is answered as before, provided the file is not stored
    under "__proto__". *)
Theorem addFile_keeps_other_paths (join : string -> string -> string)
    (fs fs' : Files) (file : FileContent) (prefixDir : option string)
    (uri : Uri) :
  addFile join fs file prefixDir = Some fs' ->
  storedName join file prefixDir <> "__proto__" ->
  path uri <> storedName join file prefixDir ->
  provideTextDocumentContent fs' uri = provideTextDocumentContent fs uri.
Proof.
  intros Hadd Hproto Hne.
  apply addFile_spec in Hadd as (_ & fileCopy & _ & ->).
  unfold provideTextDocumentContent, getProperty.
  rewrite own_setProperty_ne by done.
  unfold setProperty.
  by rewrite (proj2 (String.eqb_neq _ "__proto__") Hproto).
Qed.

Lemma addFile_keeps_other_paths_witness :
  provideTextDocumentContent
    (setProperty (setProperty emptyFiles "app.R" appFile)
       "constructor" constructorFile)
    {| path := "app.R" |}
  = provideTextDocumentContent (setProperty emptyFiles "app.R" appFile)
      {| path := "app.R" |}.
Proof.
  apply (addFile_keeps_other_paths slashJoin
           (setProperty emptyFiles "app.R" appFile) _ constructorFile None
           {| path := "app.R" |} eq_refl); discriminate.
Defined.

(** Without the proviso a file named "__proto__" changes the answers
    for other paths: "content" is answered with nothing before, and with
    [undefined] after. *)
Lemma addFile_proto_changes_other_paths :
  provideTextDocumentContent emptyFiles {| path := "content" |} = VString ""
  /\ provideTextDocumentContent
       (setProperty emptyFiles "__proto__" appFile) {| path := "content" |}
     = VUndefined.
Proof. split; reflexivity. Qed.

Lemma addFiles_text join (files : list FileContent) prefixDir :
  Forall (fun f => type f <> Some "binary") files ->
  forall fs, snd (addFiles join fs files prefixDir) = true.
Proof.
  induction 1 as [|file files Hfile _ IH]; intros fs; [done|]. simpl.
  destruct (addFile_text join fs file prefixDir Hfile) as [fs' ->].
  apply IH.
Qed.

Lemma addFiles_app join (before after : list FileContent) prefixDir :
  forall fs,
    snd (addFiles join fs before prefixDir) = true ->
    addFiles join fs (before ++ after) prefixDir
    = addFiles join (fst (addFiles join fs before prefixDir)) after prefixDir.
Proof.
  induction before as [|file before IH]; intros fs Hok; [done|].
  simpl in *. destruct (addFile join fs file prefixDir) as [fs'|]; [|done].
  by apply IH.
Qed.

(** X17: [addFiles] stops at the first binary file with an exception:
    the files before it have been added and stay, the binary file and
    the files after it are not added. *)
Theorem addFiles_stops_at_binary (join : string -> string -> string)
    (fs : Files) (before after : list FileContent) (file : FileContent)
    (prefixDir : option string) :
  Forall (fun f => type f <> Some "binary") before ->
  type file = Some "binary" ->
  snd (addFiles join fs before prefixDir) = true
  /\ addFiles join fs (before ++ file :: after) prefixDir
     = (fst (addFiles join fs before prefixDir), false).
Proof.
  intros Hbefore Hbin.
  pose proof (addFiles_text join before prefixDir Hbefore fs) as Hok.
  split; [exact Hok|]. rewrite addFiles_app by done.
  simpl. by rewrite addFile_binary.
Qed.

Lemma addFiles_stops_at_binary_witness :
  addFiles slashJoin emptyFiles ([appFile] ++ logoFile :: [constructorFile]) None
  = (setProperty emptyFiles "app.R" appFile, false).
Proof.
  apply (addFiles_stops_at_binary slashJoin emptyFiles [appFile]
           [constructorFile] logoFile None).
  - apply List.Forall_cons; [discriminate|apply List.Forall_nil].
  - reflexivity.
Defined.

Lemma addFiles_own_frame join (files : list FileContent) prefixDir (p : string) :
  (forall file, file ∈ files -> storedName join file prefixDir <> p) ->
  forall fs fs' ok,
    addFiles join fs files prefixDir = (fs', ok) ->
    own fs' !! p = own fs !! p.
Proof.
  induction files as [|file files IH]; intros Hnames fs fs' ok Hadd.
  - by injection Hadd as <- _.
  - simpl in Hadd.
    destruct (addFile join fs file prefixDir) as [fs1|] eqn:Hfile.
    + pose proof (addFile_spec _ _ _ _ _ Hfile) as (_ & fileCopy & _ & ->).
      rewrite (IH (fun f Hf => Hnames f (list_elem_of_further _ _ _ Hf))
                 _ _ _ Hadd).
      apply own_setProperty_ne, Hnames, list_elem_of_here.
    + by injection Hadd as <- _.
Qed.

(** X18: after [addFiles] went through a list without an exception,
    each file of the list is served under its stored path with its own
    content, unless a later file of the list is stored under the same
    path (then the later one wins); the path must not be under
    "/empty/" nor be "__proto__". *)
Theorem addFiles_serves_last (join : string -> string -> string)
    (files : list FileContent) (prefixDir : option string) :
  forall (fs fs' : Files) (i : nat) (file : FileContent),
    addFiles join fs files prefixDir = (fs', true) ->
    files !! i = Some file ->
    servablePath (storedName join file prefixDir) ->
    (forall (j : nat) (later : FileContent),
       (i < j)%nat -> files !! j = Some later ->
       storedName join later prefixDir <> storedName join file prefixDir) ->
    provideTextDocumentContent fs'
      {| path := storedName join file prefixDir |}
    = VString (content file).
Proof.
  induction files as [|file0 files IH]; intros fs fs' i file Hadd Hi Hpath Hlater;
    [done|].
  simpl in Hadd.
  destruct (addFile join fs file0 prefixDir) as [fs1|] eqn:Hfile; [|done].
  destruct i as [|i].
  - injection Hi as ->. destruct Hpath as [Hempty Hproto].
    pose proof (addFile_spec _ _ _ _ _ Hfile) as (_ & fileCopy & Hcontent & ->).
    rewrite <- Hcontent. apply provide_own; [|done].
    rewrite (addFiles_own_frame join files prefixDir
               (storedName join file prefixDir)) with (fs := setProperty fs
               (storedName join file prefixDir) fileCopy) (ok := true); [|  |done].
    + by apply own_setProperty_eq.
    + intros later Hin. apply list_elem_of_lookup in Hin as [j Hj].
      apply (Hlater (S j)); [lia|done].
  - apply (IH fs1 fs' i file Hadd Hi Hpath).
    intros j later Hj Hl. apply (Hlater (S j)); [lia|done].
Qed.

Lemma addFiles_serves_last_witness :
  addFiles slashJoin emptyFiles [appFile; appFileRevised] (Some "proposed")
  = (setProperty
       (setProperty emptyFiles "proposed/app.R"
          {| name := "proposed/app.R"; content := "library(shiny)";
             type := None |})
       "proposed/app.R"
       {| name := "proposed/app.R"; content := "library(bslib)";
          type := Some "text" |}, true)
  /\ provideTextDocumentContent
       (fst (addFiles slashJoin emptyFiles [appFile; appFileRevised]
               (Some "proposed")))
       {| path := "proposed/app.R" |}
     = VString "library(bslib)".
Proof.
  assert (Hadd : addFiles slashJoin emptyFiles [appFile; appFileRevised]
                   (Some "proposed")
                 = (setProperty
                      (setProperty emptyFiles "proposed/app.R"
                         {| name := "proposed/app.R";
                            content := "library(shiny)"; type := None |})
                      "proposed/app.R"
                      {| name := "proposed/app.R"; content := "library(bslib)";
                         type := Some "text" |}, true)) by reflexivity.
  split; [exact Hadd|]. rewrite Hadd.
  apply (addFiles_serves_last slashJoin [appFile; appFileRevised]
           (Some "proposed") emptyFiles _ 1%nat appFileRevised Hadd eq_refl).
  - split; [reflexivity|discriminate].
  - intros [|[|j]] later Hj Hl; [lia|lia|done].
Defined.
